(** * server.js: the SQL relay backend

    A shallow embedding of the two request handlers of [server.js]
    ([POST /api/generate-sql] and [POST /api/execute-sql]) and of the
    origin check handed to the [cors] middleware, together with the
    properties the specification states about them.

    Conventions.
    - A JavaScript value that came out of a JSON parser is a [json]; a
      value that may be [undefined] is an [option json]; a number is the
      double it is.
    - A JavaScript string is the [string] of its UTF-8 bytes.
    - What a handler does to the outside world (the sqlite3 binding, the
      text-generation client, the HTTP response) is recorded as a list of
      [event]s in the order in which the calls are made.  [console.log]
      and [console.error] are not recorded.
    - The sqlite3 binding, the text-generation client and [JSON.parse]
      are not part of the repository; they are parameters. *)

From Stdlib Require Import ZArith List String Ascii Bool Lia Floats.
From stdpp Require Import base tactics option list strings gmap.

#[local] Set Warnings "-register-all".
#[local] Open Scope Z_scope.

(** ** JSON values *)

Inductive json : Type :=
| JNull
| JBool (b : bool)
| JNum (x : float)
| JStr (s : string)
| JArr (items : list json)
| JObj (props : list (string * json)).

(** [!v] is [negb (truthy v)]: [undefined], [null], [false], [0], [-0],
    [NaN] and the empty string are the falsy values. *)
Definition truthy (v : option json) : bool :=
  match v with
  | None => false
  | Some JNull => false
  | Some (JBool b) => b
  | Some (JNum x) => negb (PrimFloat.eqb x 0%float || PrimFloat.is_nan x)
  | Some (JStr s) => negb (bool_decide (s = ""))
  | Some (JArr _) => true
  | Some (JObj _) => true
  end.

(** [Array.isArray(v)] *)
Definition isArray (v : option json) : bool :=
  match v with
  | Some (JArr _) => true
  | _ => false
  end.

(** The property [key] of an object literal read by [JSON.parse]: when a
    key is repeated the last occurrence is the one that is kept. *)
Fixpoint lookup_prop (key : string) (props : list (string * json)) : option json :=
  match props with
  | [] => None
  | (k, v) :: rest =>
      match lookup_prop key rest with
      | Some w => Some w
      | None => if String.eqb k key then Some v else None
      end
  end.

(** [const { key } = o]: the own property [key] of [o], [undefined] when
    there is none.  [express.json()] hands the handlers an object or an
    array; an array has none of the keys the handlers read. *)
Definition get (key : string) (o : json) : option json :=
  match o with
  | JObj props => lookup_prop key props
  | _ => None
  end.

(** The elements a [for ... of] loop visits. *)
Definition elements (v : option json) : list json :=
  match v with
  | Some (JArr items) => items
  | _ => []
  end.

(** ** Events *)

Inductive event : Type :=
| NewDatabase                       (* new sqlite3.Database(':memory:', cb) *)
| DbRun (sql : json)                (* db.run(sql, cb) *)
| DbAll (sql : json)                (* db.all(sql, [], cb) *)
| DbClose                           (* db.close(cb) *)
| GenerateContent (instruction : string)  (* model.generateContent(instruction) *)
| Respond (status : Z) (body : json).     (* res.status(status).json(body) *)

(** [{ error: message }] *)
Definition error_json (message : string) : json :=
  JObj [("error", JStr message)].

Definition is_respond (e : event) : bool :=
  match e with Respond _ _ => true | _ => false end.

Definition is_close (e : event) : bool :=
  match e with DbClose => true | _ => false end.

Definition is_run (e : event) : bool :=
  match e with DbRun _ => true | _ => false end.


Definition is_new_database (e : event) : bool :=
  match e with NewDatabase => true | _ => false end.

Definition is_generate (e : event) : bool :=
  match e with GenerateContent _ => true | _ => false end.

(** How often an event of a given kind occurs in a trace. *)
Fixpoint count (p : event → bool) (tr : list event) : nat :=
  match tr with
  | [] => 0%nat
  | e :: tr' => ((if p e then 1 else 0) + count p tr')%nat
  end.

(** Whether [db.close] has been called before every response of a trace;
    [closed] says whether it was called before the trace starts. *)
Fixpoint closed_before_responding (closed : bool) (tr : list event) : bool :=
  match tr with
  | [] => true
  | DbClose :: tr' => closed_before_responding true tr'
  | Respond _ _ :: tr' => closed && closed_before_responding closed tr'
  | _ :: tr' => closed_before_responding closed tr'
  end.

(** ** The sqlite3 binding *)

(** What the callback of [db.run] or [db.all] is called with. *)
Inductive outcome (A : Type) : Type :=
| Failure (message : string)        (* cb(err), with err.message *)
| Success (a : A).                  (* cb(null, a) *)
Arguments Failure {A} message.
Arguments Success {A} a.

(** The engine as the handler sees it while one request is served, with
    what else SQLite can read (the clock, its random source, the files of
    the machine) held fixed; an [Engine], further down, lets that vary.
    - [sql_throws sql] is [Some m] when [db.run(sql, ...)] or
      [db.all(sql, ...)] throws synchronously with message [m] (the
      binding checks its arguments before it queues the statement);
    - [run] and [all] give what the callback receives when the statement
      is executed on a database in a given state;
    - [failed_handle] says what happens to a statement queued on a handle
      that failed to open: [None] when its callback is never called,
      [Some m] when it is called with an error of message [m]. *)
Record Sqlite : Type := {
  DB : Type;
  empty_db : DB;
  sql_throws : json → option string;
  run : json → DB → outcome DB;
  all : json → DB → outcome (list json);
  failed_handle : option string;
}.

(** ** POST /api/execute-sql *)

(** What one request did: the calls it made, in order, and whether the
    [async] handler ran to its end. *)
Record execution : Type := {
  events : list event;
  returned : bool;
}.

(** The [catch] block followed by the [finally] block (server.js lines
    169-181), entered with [error.message]. *)
Definition catch_finally (message : string) : list event :=
  [ Respond 500 (error_json
      (if bool_decide (message = "")
       then "An unexpected error occurred during database operations."
       else message));
    DbClose ].

(** The callback of [new sqlite3.Database] called with an error (line 127). *)
Definition init_failure : event :=
  Respond 500 (error_json "Failed to initialize database.").

(** The condition of line 119. *)
Definition incomplete (body : json) : bool :=
  let sqlQuery := get "sqlQuery" body in
  let createTableSql := get "createTableSql" body in
  let insertDataSql := get "insertDataSql" body in
  negb (truthy sqlQuery) || negb (truthy createTableSql)
  || negb (truthy insertDataSql) || negb (isArray insertDataSql).

(** Line 120. *)
Definition bad_request : event :=
  Respond 400 (error_json
    "SQL query, CREATE TABLE statement, and INSERT data are required.").

Section Execute.
Variable sqlite3 : Sqlite.

(** Lines 160-167, then the [finally] block: [db.all] is not awaited, so
    [db.close] is called before the callback of [db.all] answers. *)
Definition query_step (sqlQuery : json) (d : DB sqlite3) : list event :=
  DbAll sqlQuery ::
  match sql_throws sqlite3 sqlQuery with
  | Some m => catch_finally m
  | None =>
      DbClose ::
      match all sqlite3 sqlQuery d with
      | Failure m => [Respond 500 (error_json ("Failed to execute query: " +:+ m))]
      | Success rows => [Respond 200 (JObj [("results", JArr rows)])]
      end
  end.

(** Lines 146-156: one awaited [db.run] per element, in array order. *)
Fixpoint insert_loop (stmts : list json) (sqlQuery : json) (d : DB sqlite3)
    : list event :=
  match stmts with
  | [] => query_step sqlQuery d
  | insertStmt :: rest =>
      DbRun insertStmt ::
      match sql_throws sqlite3 insertStmt with
      | Some m => catch_finally m
      | None =>
          match run sqlite3 insertStmt d with
          | Failure m => catch_finally ("Failed to insert data: " +:+ m)
          | Success d' => insert_loop rest sqlQuery d'
          end
      end
  end.

(** Lines 132-181 on a database that opened. *)
Definition try_block (createTableSql : json) (stmts : list json)
    (sqlQuery : json) : list event :=
  DbRun createTableSql ::
  match sql_throws sqlite3 createTableSql with
  | Some m => catch_finally m
  | None =>
      match run sqlite3 createTableSql (empty_db sqlite3) with
      | Failure m => catch_finally ("Failed to create table: " +:+ m)
      | Success d => insert_loop stmts sqlQuery d
      end
  end.

(** Lines 132-181 on a database that failed to open.  The handler has
    called [db.run(createTableSql)] before the callback of the
    constructor reports the failure; the [return] of line 127 leaves that
    callback only. *)
Definition try_block_unopened (createTableSql : json) : execution :=
  match sql_throws sqlite3 createTableSql with
  | Some m =>
      {| events := DbRun createTableSql :: catch_finally m ++ [init_failure];
         returned := true |}
  | None =>
      match failed_handle sqlite3 with
      | None =>
          {| events := [DbRun createTableSql; init_failure];
             returned := false |}
      | Some m =>
          {| events := DbRun createTableSql :: init_failure ::
               catch_finally ("Failed to create table: " +:+ m);
             returned := true |}
      end
  end.

(** The handler of lines 115-182.  [opens] says whether the in-memory
    database of this request opens. *)
Definition execute_sql (opens : bool) (body : json) : execution :=
  let sqlQuery := get "sqlQuery" body in
  let createTableSql := get "createTableSql" body in
  let insertDataSql := get "insertDataSql" body in
  if incomplete body then
    {| events := [bad_request]; returned := true |}
  else
    let q := default JNull sqlQuery in
    let c := default JNull createTableSql in
    if opens then
      {| events := NewDatabase :: try_block c (elements insertDataSql) q;
         returned := true |}
    else
      let r := try_block_unopened c in
      {| events := NewDatabase :: events r; returned := returned r |}.

End Execute.

(** ** Several requests in flight

    The handler gives up control at every [await] and after its last
    line; meanwhile other requests are served.  A [server] holds the
    databases that are open and one [task] per request received so far.
    An [action] is either the arrival of a request, which runs its handler
    up to the first [await], or the completion of the statement a task is
    waiting for, which runs that handler up to its next [await].

    What SQLite answers can depend on more than the statement and the
    content of the database: on the clock, on its random source, on the
    files of the machine.  An [Engine] is given these surroundings, its
    [ambient], with every statement, and every action of the server
    carries the surroundings in which it happens. *)

Record Engine : Type := {
  ambient : Type;
  content : Type;
  blank : content;
  refuses : json → option string;
  execute : ambient → json → content → outcome content;
  select : ambient → json → content → outcome (list json);
  abandoned : option string;
}.

(** The binding as a handler sees it while the surroundings are [a]. *)
Definition engine_at (E : Engine) (a : ambient E) : Sqlite :=
  {| DB := content E;
     empty_db := blank E;
     sql_throws := refuses E;
     run := execute E a;
     all := select E a;
     failed_handle := abandoned E |}.

(** The answers of the engine depend on the statement and on the content
    of the database alone. *)
Definition timeless (E : Engine) : Prop :=
  ∀ (a a' : ambient E) (sql : json) (d : content E),
    execute E a sql d = execute E a' sql d
    ∧ select E a sql d = select E a' sql d.

Inductive stage : Type :=
| AwaitRun (failed : string) (stmt : json) (rest : list json)
    (* [db.run(stmt)] is queued; [failed] starts the message of its
       rejection; [rest] are the statements of the loop still to come *)
| AwaitAll  (* [db.all] and [db.close] are queued *)
| Stalled   (* the database did not open and the statement queued on it
               never completes: the handler waits for ever *)
| Finished. (* the handler has returned and its last callback has run *)

Record task : Type := {
  request : json;
  opened : bool;
  handle : nat;
  stage_of : stage;
  done : list event;
}.

Inductive action (A : Type) : Type :=
| Arrive (a : A) (opens : bool) (body : json)
| Complete (a : A) (i : nat).
Arguments Arrive {A} a opens body.
Arguments Complete {A} a i.

(** Whether [db.close] has been called. *)
Definition closes (tr : list event) : bool := existsb is_close tr.

Section Server.
Variable E : Engine.

Record server : Type := {
  databases : gmap nat (content E);
  next_handle : nat;
  tasks : list task;
}.

Definition idle : server :=
  {| databases := ∅; next_handle := 0; tasks := [] |}.

(** What the handler calls once the statement before has succeeded: the
    next [db.run] of the loop, or [db.all] and then [db.close]. *)
Definition next_call (rest : list json) (sqlQuery : json) : list event * stage :=
  match rest with
  | insertStmt :: rest' =>
      match refuses E insertStmt with
      | Some m => (DbRun insertStmt :: catch_finally m, Finished)
      | None => ([DbRun insertStmt], AwaitRun "Failed to insert data: " insertStmt rest')
      end
  | [] =>
      match refuses E sqlQuery with
      | Some m => (DbAll sqlQuery :: catch_finally m, Finished)
      | None => ([DbAll sqlQuery; DbClose], AwaitAll)
      end
  end.

(** The databases after a step of the task [t] that left [d] in its
    database.  The binding closes a database, and it is gone, when
    [db.close] has been called on it and nothing is queued before the
    close any more, which is when the task is over; a task that is over
    without having called [db.close] leaves its database behind. *)
Definition kept (t : task) (d : content E) (dbs : gmap nat (content E))
    : gmap nat (content E) :=
  match stage_of t with
  | Finished =>
      if closes (done t) then delete (handle t) dbs else <[handle t := d]> dbs
  | _ => <[handle t := d]> dbs
  end.

(** A request arrives: lines 115-135.  [new sqlite3.Database(':memory:')]
    gives the request a database of its own, with nothing in it, under a
    handle no other request holds; when it does not open there is no
    database, and the handler either answers a second time or waits for
    ever, as [try_block_unopened] says. *)
Definition arrive (a : ambient E) (opens : bool) (body : json) (w : server) : server :=
  let h := next_handle w in
  let c := default JNull (get "createTableSql" body) in
  if incomplete body then
    {| databases := databases w; next_handle := h;
       tasks := tasks w ++
         [{| request := body; opened := opens; handle := h;
             stage_of := Finished; done := [bad_request] |}] |}
  else if opens then
    let t :=
      match refuses E c with
      | Some m =>
          {| request := body; opened := opens; handle := h;
             stage_of := Finished;
             done := NewDatabase :: DbRun c :: catch_finally m |}
      | None =>
          {| request := body; opened := opens; handle := h;
             stage_of := AwaitRun "Failed to create table: " c
                           (elements (get "insertDataSql" body));
             done := [NewDatabase; DbRun c] |}
      end in
    {| databases := kept t (blank E) (databases w);
       next_handle := S h;
       tasks := tasks w ++ [t] |}
  else
    let r := try_block_unopened (engine_at E a) c in
    {| databases := databases w; next_handle := S h;
       tasks := tasks w ++
         [{| request := body; opened := opens; handle := h;
             stage_of := if returned r then Finished else Stalled;
             done := NewDatabase :: events r |}] |}.

(** The statement a task waits for completes, in the surroundings [a]. *)
Definition resume (a : ambient E) (t : task) (dbs : gmap nat (content E))
    : task * gmap nat (content E) :=
  let q := default JNull (get "sqlQuery" (request t)) in
  match stage_of t, dbs !! handle t with
  | AwaitRun failed stmt rest, Some d =>
      match execute E a stmt d with
      | Failure m =>
          let t' :=
            {| request := request t; opened := opened t; handle := handle t;
               stage_of := Finished;
               done := done t ++ catch_finally (failed +:+ m) |} in
          (t', kept t' d dbs)
      | Success d' =>
          let '(evs, st) := next_call rest q in
          let t' :=
            {| request := request t; opened := opened t; handle := handle t;
               stage_of := st; done := done t ++ evs |} in
          (t', kept t' d' dbs)
      end
  | AwaitAll, Some d =>
      let t' :=
        {| request := request t; opened := opened t; handle := handle t;
           stage_of := Finished;
           done := done t ++
             [match select E a q d with
              | Failure m => Respond 500 (error_json ("Failed to execute query: " +:+ m))
              | Success rows => Respond 200 (JObj [("results", JArr rows)])
              end] |} in
      (t', kept t' d dbs)
  | _, _ => (t, dbs)
  end.

Definition act (w : server) (x : action (ambient E)) : server :=
  match x with
  | Arrive a opens body => arrive a opens body w
  | Complete a i =>
      match tasks w !! i with
      | Some t =>
          let '(t', dbs) := resume a t (databases w) in
          {| databases := dbs; next_handle := next_handle w;
             tasks := <[i := t']> (tasks w) |}
      | None => w
      end
  end.

(** The server after a schedule of arrivals and completions. *)
Definition serve (schedule : list (action (ambient E))) (w : server) : server :=
  fold_left act schedule w.

End Server.

Arguments databases {E} _.
Arguments next_handle {E} _.
Arguments tasks {E} _.

(** ** What holds of a server between two actions *)

(** A task that holds a database and has more to do. *)
Definition at_work (t : task) : Prop :=
  stage_of t ≠ Finished ∧ stage_of t ≠ Stalled.

(** How many completions a task still waits for, at most. *)
Definition budget (t : task) : nat :=
  match stage_of t with
  | AwaitRun _ _ rest => S (S (length rest))
  | AwaitAll => 1
  | Stalled => 0
  | Finished => 0
  end.

Section Invariant.
Variable E : Engine.

(** Every task at work has its database, two tasks at work hold different
    databases, and the handles in use are below the next one to be given
    out. *)
Definition consistent (w : server E) : Prop :=
  (∀ i t, tasks w !! i = Some t → at_work t → is_Some (databases w !! handle t))
  ∧ (∀ i j ti tj,
       tasks w !! i = Some ti → tasks w !! j = Some tj → i ≠ j →
       at_work ti → at_work tj → handle ti ≠ handle tj)
  ∧ (∀ i t, tasks w !! i = Some t → at_work t → (handle t < next_handle w)%nat).

(** Every database the server holds belongs to a task at work, and a
    task that has queued [db.all] has called [db.close]. *)
Definition tidy (w : server E) : Prop :=
  (∀ k, is_Some (databases w !! k) →
        ∃ i t, tasks w !! i = Some t ∧ at_work t ∧ handle t = k)
  ∧ (∀ i t, tasks w !! i = Some t → stage_of t = AwaitAll → closes (done t) = true).

Variable now : ambient E.

(** What the request of a task does when it is served alone, in the
    surroundings [now]. *)
Definition alone (t : task) : list event :=
  events (execute_sql (engine_at E now) (opened t) (request t)).

(** What a task has still to do, read off its stage and the state of
    its own database. *)
Definition remaining (t : task) (dbs : gmap nat (content E))
    : option (list event) :=
  let q := default JNull (get "sqlQuery" (request t)) in
  match stage_of t with
  | Finished => Some []
  | Stalled => Some []
  | AwaitRun failed stmt rest =>
      match dbs !! handle t with
      | Some d =>
          Some match execute E now stmt d with
               | Failure m => catch_finally (failed +:+ m)
               | Success d' => insert_loop (engine_at E now) rest q d'
               end
      | None => None
      end
  | AwaitAll =>
      match dbs !! handle t with
      | Some d =>
          Some [match select E now q d with
                | Failure m =>
                    Respond 500 (error_json ("Failed to execute query: " +:+ m))
                | Success rows => Respond 200 (JObj [("results", JArr rows)])
                end]
      | None => None
      end
  end.

(** A task is on the path its request takes when served alone. *)
Definition on_track (dbs : gmap nat (content E)) (t : task) : Prop :=
  ∃ rest, remaining t dbs = Some rest ∧ done t ++ rest = alone t.

Definition faithful (w : server E) : Prop :=
  ∀ i t, tasks w !! i = Some t → on_track (databases w) t.

End Invariant.

(** ** Vocabulary of the properties *)

Section Vocabulary.
Variable sqlite3 : Sqlite.


(** The database after every statement of [stmts] has succeeded on [d],
    in order; [None] when one of them fails. *)
Fixpoint seeded (stmts : list json) (d : DB sqlite3) : option (DB sqlite3) :=
  match stmts with
  | [] => Some d
  | stmt :: rest =>
      match sql_throws sqlite3 stmt with
      | Some _ => None
      | None =>
          match run sqlite3 stmt d with
          | Failure _ => None
          | Success d' => seeded rest d'
          end
      end
  end.
End Vocabulary.

(** The request body of an execution request with all three fields. *)
Definition execution_request (sqlQuery createTableSql : json) (stmts : list json)
    : json :=
  JObj [ ("sqlQuery", sqlQuery);
         ("createTableSql", createTableSql);
         ("insertDataSql", JArr stmts) ].

(** ** A small engine to run the handler on

    One table [t] with one integer column: the three statements of the
    specification's end-to-end scenario, and an insertion into a table
    that does not exist. *)
Definition mini_run (sql : json) (d : option (list json)) : outcome (option (list json)) :=
  match sql, d with
  | JStr "CREATE TABLE t (id INTEGER)", None => Success (Some [])
  | JStr "CREATE TABLE t (id INTEGER)", Some _ =>
      Failure "SQLITE_ERROR: table t already exists"
  | JStr "INSERT INTO t VALUES (1)", Some rows =>
      Success (Some (rows ++ [JObj [("id", JNum 1%float)]]))
  | JStr "INSERT INTO t VALUES (1)", None => Failure "SQLITE_ERROR: no such table: t"
  | JStr "INSERT INTO u VALUES (7)", _ => Failure "SQLITE_ERROR: no such table: u"
  | _, _ => Failure "SQLITE_ERROR: syntax error"
  end.

Definition mini_all (sql : json) (d : option (list json)) : outcome (list json) :=
  match sql, d with
  | JStr "SELECT * FROM t", Some rows => Success rows
  | JStr "SELECT * FROM t", None => Failure "SQLITE_ERROR: no such table: t"
  | _, _ => Failure "SQLITE_ERROR: syntax error"
  end.

Definition mini_throws (sql : json) : option string :=
  match sql with
  | JStr _ => None
  | _ => Some "SQL query expected"
  end.

Definition mini_sqlite (dead : option string) : Sqlite :=
  {| DB := option (list json);
     empty_db := None;
     sql_throws := mini_throws;
     run := mini_run;
     all := mini_all;
     failed_handle := dead |}.

(** ** Strings *)

Definition LF : string := String "010"%char "".

(** [strip_prefix p s] is what follows [p] in [s], when [s] starts with [p]. *)
Fixpoint strip_prefix (p s : string) : option string :=
  match p with
  | EmptyString => Some s
  | String a p' =>
      match s with
      | EmptyString => None
      | String b s' => if Ascii.eqb a b then strip_prefix p' s' else None
      end
  end.

(** [strip_suffix p s] is what precedes [p] in [s], when [s] ends with [p]. *)
Definition strip_suffix (p s : string) : option string :=
  String.rev <$> strip_prefix (String.rev p) (String.rev s).

(** [s.startsWith(p)] *)
Definition startsWith (p s : string) : bool :=
  match strip_prefix p s with
  | Some _ => true
  | None => false
  end.

(** [hay.includes(needle)] *)
Fixpoint contains (needle hay : string) : bool :=
  startsWith needle hay
  || match hay with
     | EmptyString => false
     | String _ hay' => contains needle hay'
     end.

Definition utf8 (bytes : list nat) : string :=
  fold_right (λ n s, String (ascii_of_nat n) s) "" bytes.

(** The code points [String.prototype.trim] removes (WhiteSpace and
    LineTerminator of ECMAScript), as UTF-8: TAB, LF, VT, FF, CR, SP,
    U+00A0, U+1680, U+2000..U+200A, U+2028, U+2029, U+202F, U+205F,
    U+3000 and U+FEFF. *)
Definition white_space : list string :=
  [ utf8 [9]; utf8 [10]; utf8 [11]; utf8 [12]; utf8 [13]; utf8 [32];
    utf8 [194; 160]; utf8 [225; 154; 128];
    utf8 [226; 128; 128]; utf8 [226; 128; 129]; utf8 [226; 128; 130];
    utf8 [226; 128; 131]; utf8 [226; 128; 132]; utf8 [226; 128; 133];
    utf8 [226; 128; 134]; utf8 [226; 128; 135]; utf8 [226; 128; 136];
    utf8 [226; 128; 137]; utf8 [226; 128; 138];
    utf8 [226; 128; 168]; utf8 [226; 128; 169]; utf8 [226; 128; 175];
    utf8 [226; 129; 159]; utf8 [227; 128; 128]; utf8 [239; 187; 191] ]%nat.

(** The rest of [s] after one leading member of [ps], if it has one. *)
Fixpoint strip_one (ps : list string) (s : string) : option string :=
  match ps with
  | [] => None
  | p :: ps' =>
      match strip_prefix p s with
      | Some r => Some r
      | None => strip_one ps' s
      end
  end.

Fixpoint strip_all (fuel : nat) (ps : list string) (s : string) : string :=
  match fuel with
  | O => s
  | S fuel' =>
      match strip_one ps s with
      | Some r => strip_all fuel' ps r
      | None => s
      end
  end.

Definition trimStart (s : string) : string :=
  strip_all (String.length s) white_space s.

Definition trimEnd (s : string) : string :=
  String.rev (strip_all (String.length s) (map String.rev white_space) (String.rev s)).

(** [s.trim()] *)
Definition trim (s : string) : string := trimEnd (trimStart s).

(** The class [[a-z]] under the [i] flag: the ASCII letters. *)
Definition is_letter (a : ascii) : bool :=
  let n := nat_of_ascii a in
  ((65 <=? n) && (n <=? 90) || (97 <=? n) && (n <=? 122))%nat.

Fixpoint drop_letters (s : string) : string :=
  match s with
  | EmptyString => EmptyString
  | String a s' => if is_letter a then drop_letters s' else s
  end.

Definition drop_newline (s : string) : string :=
  match strip_prefix LF s with
  | Some r => r
  | None => s
  end.

(** [s.replace(/^```[a-z]*\n?/i, '')] (line 91): the three backquotes at
    the start of [s], the longest run of letters after them and one line
    feed after those are removed; [s] is unchanged when it does not start
    with three backquotes. *)
Definition remove_opening_fence (s : string) : string :=
  match strip_prefix "```" s with
  | Some r => drop_newline (drop_letters r)
  | None => s
  end.

(** [s.replace(/\n?```$/, '')] (line 93): three backquotes at the very end
    of [s] are removed, with the line feed before them when there is one. *)
Definition remove_closing_fence (s : string) : string :=
  match strip_suffix (LF +:+ "```") s with
  | Some r => r
  | None =>
      match strip_suffix "```" s with
      | Some r => r
      | None => s
      end
  end.

(** A language tag made of letters only. *)
Fixpoint all_letters (s : string) : bool :=
  match s with
  | EmptyString => true
  | String a s' => is_letter a && all_letters s'
  end.

(** Lines 88-94: the text handed to [JSON.parse]. *)
Definition cleanedText (text : string) : string :=
  let t := trim text in
  if startsWith "```" t
  then remove_closing_fence (remove_opening_fence t)
  else t.

(** ** POST /api/generate-sql *)

Definition unlines (ls : list string) : string :=
  fold_right (λ l s, l +:+ LF +:+ s) "" ls.

(** [quoted s] is [s] with every [@] replaced by a double quote. *)
Fixpoint quoted (s : string) : string :=
  match s with
  | EmptyString => EmptyString
  | String a s' => String (if Ascii.eqb a "@"%char then "034"%char else a) (quoted s')
  end.

(** The template of lines 51-75 before and after [${prompt}]; a double
    quote of the source is written [@] here. *)
Definition instruction_head : string :=
  quoted (unlines
    [ "";
      "      Given the following natural language request, generate:";
      "      1. A SQLite SQL SELECT query that answers the request.";
      "      2. A SQLite CREATE TABLE statement for a table that would contain relevant data for this query.";
      "      3. At least 5 SQLite INSERT INTO statements to populate the table with sample data.";
      "      ";
      "      Ensure the table name and column names in the SELECT query match the CREATE TABLE statement.";
      "      The output should be in a JSON format with three keys: @sqlQuery@, @createTableSql@, and @insertDataSql@.";
      "      @insertDataSql@ should be an array of strings, where each string is an INSERT INTO statement.";
      "" ]
    +:+ "      Natural language request: @").

Definition instruction_tail : string :=
  quoted (unlines
    [ "@";
      "";
      "      Example JSON output structure:";
      "      {";
      "        @sqlQuery@: @SELECT name, age FROM students WHERE age > 20;@,";
      "        @createTableSql@: @CREATE TABLE students (id INTEGER PRIMARY KEY, name TEXT, age INTEGER, major TEXT);@,";
      "        @insertDataSql@: [";
      "          @INSERT INTO students (id, name, age, major) VALUES (1, 'Alice', 22, 'Computer Science');@,";
      "          @INSERT INTO students (id, name, age, major) VALUES (2, 'Bob', 19, 'Physics');@,";
      "          @INSERT INTO students (id, name, age, major) VALUES (3, 'Charlie', 25, 'Mathematics');@,";
      "          @INSERT INTO students (id, name, age, major) VALUES (4, 'Diana', 21, 'Biology');@,";
      "          @INSERT INTO students (id, name, age, major) VALUES (5, 'Eve', 23, 'Chemistry');@";
      "        ]";
      "      }" ]
    +:+ "    ").

Section Generate.
(** [generateContent instruction] is the text of the completion, [None]
    when any of lines 48-81 throws. *)
Variable generateContent : string → option string.
(** [JSON.parse], [None] when it throws. *)
Variable JSON_parse : string → option json.
(** [String(x)] for a number [x]. *)
Variable Number_toString : float → string.

(** The string a value becomes inside a template literal, [None] when
    the conversion throws a TypeError.  An object is converted by its
    [toString] property: the one of [Object.prototype] unless the object
    has a property of that name of its own, and such a property of a
    parsed object is never a function, so the conversion throws.  An
    array is converted by joining its elements with commas, [null]
    giving the empty string and every other element its own string. *)
Fixpoint toString (v : json) : option string :=
  let fix joined (items : list json) : option (list string) :=
    match items with
    | [] => Some []
    | i :: rest =>
        match match i with JNull => Some "" | _ => toString i end, joined rest with
        | Some s, Some ss => Some (s :: ss)
        | _, _ => None
        end
    end in
  match v with
  | JNull => Some "null"
  | JBool true => Some "true"
  | JBool false => Some "false"
  | JNum x => Some (Number_toString x)
  | JStr s => Some s
  | JArr items => String.concat "," <$> joined items
  | JObj props =>
      match lookup_prop "toString" props with
      | Some _ => None
      | None => Some "[object Object]"
      end
  end.

(** Lines 51-75, [None] when the template literal throws. *)
Definition geminiPrompt (prompt : json) : option string :=
  (λ s, instruction_head +:+ s +:+ instruction_tail) <$> toString prompt.

(** [{ sqlQuery, createTableSql, insertDataSql }] as [res.json] sends
    it: a property whose value is [undefined] is left out. *)
Definition picked (parsedResponse : json) : json :=
  JObj (omap (λ key, pair key <$> get key parsedResponse)
          ["sqlQuery"; "createTableSql"; "insertDataSql"]).

(** The handler of lines 38-112. *)
Definition generate_sql (body : json) : list event :=
  let prompt := get "prompt" body in
  if negb (truthy prompt) then
    [Respond 400 (error_json "Prompt is required.")]
  else
    match geminiPrompt (default JNull prompt) with
    | None =>
        (* the template literal throws inside [try]; the outer [catch] answers *)
        [Respond 500 (error_json "Failed to generate SQL. Please try again.")]
    | Some instruction =>
        GenerateContent instruction ::
        match generateContent instruction with
        | None => [Respond 500 (error_json "Failed to generate SQL. Please try again.")]
        | Some text =>
            match JSON_parse (cleanedText text) with
            | None =>
                [Respond 500 (error_json
                   "Failed to parse Gemini response. It might not be valid JSON.")]
            | Some JNull =>
                (* destructuring [null] throws; the outer [catch] answers *)
                [Respond 500 (error_json "Failed to generate SQL. Please try again.")]
            | Some parsedResponse => [Respond 200 (picked parsedResponse)]
            end
        end
    end.

End Generate.

(** ** The two [cors] middlewares (lines 14-27)

    The array literal of lines 15-18 does not parse as it stands (its
    first entry has lost its quotes), so what [allowedOrigins] holds is
    not taken from it: the list is a parameter of what follows. *)

(** [l.indexOf(x)] *)
Fixpoint indexOf (x : string) (l : list string) : Z :=
  match l with
  | [] => -1
  | y :: l' =>
      if String.eqb y x then 0
      else let i := indexOf x l' in if i =? -1 then -1 else i + 1
  end.

Inductive cors_decision : Type :=
| Allowed                            (* callback(null, true) *)
| NotAllowed (message : string).     (* callback(new Error(message)) *)

(** What the middleware stack needs of a request: [req.method], which
    Node hands over in capitals, and [req.headers.origin], [None] when
    the request has no Origin header. *)
Record incoming : Type := {
  verb : string;
  Origin : option string;
}.

(** What a middleware does with a request. *)
Inductive disposition : Type :=
| Next                               (* next(): on to what follows *)
| NextError (message : string)       (* next(err): the request fails *)
| Ended204.                          (* the preflight is answered here *)

(** The middleware [cors(options)] of the cors package with the options
    this file uses: the [origin] function is asked first and its error
    fails the request; a request it lets through is answered on the spot
    with status 204 when it is an OPTIONS preflight and passed on
    otherwise.  [cors()] without options lets every origin through. *)
Definition cors (origin_option : option string → cors_decision) (r : incoming)
    : disposition :=
  match origin_option (Origin r) with
  | NotAllowed message => NextError message
  | Allowed => if String.eqb (verb r) "OPTIONS" then Ended204 else Next
  end.

Section Cors.
Variable allowedOrigins : list string.

(** The [origin] option of lines 20-26. *)
Definition origin (o : option string) : cors_decision :=
  if negb (truthy (JStr <$> o))
     || negb (indexOf (default "" o) allowedOrigins =? -1)
  then Allowed
  else NotAllowed "Not allowed by CORS".

(** Lines 14 and 19-27: [app.use(cors())], then
    [app.use(cors({ origin }))] for what the first passes on. *)
Definition middleware (r : incoming) : disposition :=
  match cors (λ _, Allowed) r with
  | Next => cors origin r
  | answered => answered
  end.

End Cors.

(** The small engine again, for the server: its answers do not depend on
    the surroundings. *)
Definition mini_engine (dead : option string) : Engine :=
  {| ambient := unit;
     content := option (list json);
     blank := None;
     refuses := mini_throws;
     execute := λ _, mini_run;
     select := λ _, mini_all;
     abandoned := dead |}.


(** Three requests in flight at once: the scenario of the specification
    (task 0), a request that seeds two rows (task 1) and the scenario once
    more (task 2); their statements complete in turn. *)
Definition scenario : json :=
  execution_request (JStr "SELECT * FROM t") (JStr "CREATE TABLE t (id INTEGER)")
    [JStr "INSERT INTO t VALUES (1)"].

Definition two_rows : json :=
  execution_request (JStr "SELECT * FROM t") (JStr "CREATE TABLE t (id INTEGER)")
    [JStr "INSERT INTO t VALUES (1)"; JStr "INSERT INTO t VALUES (1)"].

(** The scenario again, its fields in another order and with a field the
    handler does not read. *)
Definition scenario_again : json :=
  JObj [ ("insertDataSql", JArr [JStr "INSERT INTO t VALUES (1)"]);
         ("client", JStr "retry");
         ("createTableSql", JStr "CREATE TABLE t (id INTEGER)");
         ("sqlQuery", JStr "SELECT * FROM t") ].

Definition busy_schedule : list (action unit) :=
  [ Arrive () true scenario; Arrive () true two_rows; Complete () 0; Complete () 1;
    Arrive () true scenario_again; Complete () 1; Complete () 2; Complete () 0;
    Complete () 1; Complete () 2; Complete () 0; Complete () 1; Complete () 2 ]%nat.



(** ** Further vocabulary *)

(** The statements handed to [db.run], in the order of the calls. *)
Definition runs (tr : list event) : list json :=
  omap (λ e, match e with DbRun sql => Some sql | _ => None end) tr.

(** Whether a text starts with a letter. *)
Definition first_is_letter (s : string) : bool :=
  match s with
  | EmptyString => false
  | String a _ => is_letter a
  end.

(** * Properties *)

(** The end-to-end scenario of the specification. *)
Example scenario_rows :
  events (execute_sql (mini_sqlite None) true
            (execution_request (JStr "SELECT * FROM t")
               (JStr "CREATE TABLE t (id INTEGER)")
               [JStr "INSERT INTO t VALUES (1)"]))
  = [ NewDatabase;
      DbRun (JStr "CREATE TABLE t (id INTEGER)");
      DbRun (JStr "INSERT INTO t VALUES (1)");
      DbAll (JStr "SELECT * FROM t");
      DbClose;
      Respond 200 (JObj [("results", JArr [JObj [("id", JNum 1%float)]])]) ].
Proof. reflexivity. Qed.

(** ** Input validation of the execution endpoint *)

Lemma incomplete_false body :
  incomplete body = false →
  truthy (get "sqlQuery" body) = true
  ∧ truthy (get "createTableSql" body) = true
  ∧ isArray (get "insertDataSql" body) = true.
Proof.
  unfold incomplete; cbn zeta.
  destruct (truthy (get "sqlQuery" body)), (truthy (get "createTableSql" body)),
    (truthy (get "insertDataSql" body)), (isArray (get "insertDataSql" body));
    simpl; intros; try discriminate; auto.
Qed.

Lemma incomplete_true_rejected sqlite3 opens body :
  incomplete body = true →
  execute_sql sqlite3 opens body = {| events := [bad_request]; returned := true |}.
Proof. unfold execute_sql; intros ->; reflexivity. Qed.

(** C5: an execution request in which the query, the table definition or
    the seed statements are missing, or in which the seed statements are
    not an array, is answered with status 400 and no database is created;
    an empty array of seed statements passes the validation (the database
    is created). *)
Theorem execute_sql_missing_field (sqlite3 : Sqlite) (opens : bool) (body : json) :
  (get "sqlQuery" body = None ∨ get "createTableSql" body = None
   ∨ get "insertDataSql" body = None ∨ isArray (get "insertDataSql" body) = false →
   events (execute_sql sqlite3 opens body)
   = [Respond 400 (error_json
        "SQL query, CREATE TABLE statement, and INSERT data are required.")]
   ∧ NewDatabase ∉ events (execute_sql sqlite3 opens body))
  ∧ (truthy (get "sqlQuery" body) = true →
     truthy (get "createTableSql" body) = true →
     get "insertDataSql" body = Some (JArr []) →
     incomplete body = false
     ∧ head (events (execute_sql sqlite3 opens body)) = Some NewDatabase).
Proof.
  split.
  - intros H.
    assert (incomplete body = true) as Hinc.
    { unfold incomplete; cbn zeta.
      destruct H as [-> | [-> | [-> | ->]]]; simpl;
        rewrite ?orb_true_r; reflexivity. }
    rewrite (incomplete_true_rejected _ _ _ Hinc); simpl.
    split; [reflexivity|].
    intros Hin. apply list_elem_of_singleton in Hin. discriminate.
  - intros Hq Hc Hi.
    assert (incomplete body = false) as Hinc.
    { unfold incomplete; cbn zeta. rewrite Hq, Hc, Hi. reflexivity. }
    split; [exact Hinc|].
    unfold execute_sql. rewrite Hinc. destruct opens; reflexivity.
Qed.

Lemma execute_sql_missing_field_witness :
  events (execute_sql (mini_sqlite None) true
            (JObj [("sqlQuery", JStr "SELECT * FROM t");
                   ("insertDataSql", JArr [])]))
  = [Respond 400 (error_json
       "SQL query, CREATE TABLE statement, and INSERT data are required.")]
  ∧ head (events (execute_sql (mini_sqlite None) true
                    (execution_request (JStr "SELECT * FROM t")
                       (JStr "CREATE TABLE t (id INTEGER)") [])))
    = Some NewDatabase.
Proof.
  split.
  - apply (execute_sql_missing_field (mini_sqlite None) true
             (JObj [("sqlQuery", JStr "SELECT * FROM t");
                    ("insertDataSql", JArr [])])).
    right; left; reflexivity.
  - apply (execute_sql_missing_field (mini_sqlite None) true
             (execution_request (JStr "SELECT * FROM t")
                (JStr "CREATE TABLE t (id INTEGER)") [])); reflexivity.
Defined.

(** C10: an execution request whose query or whose table definition is
    the empty string is answered with status 400 and no database is
    created. *)
Theorem execute_sql_empty_string (sqlite3 : Sqlite) (opens : bool) (body : json) :
  get "sqlQuery" body = Some (JStr "") ∨ get "createTableSql" body = Some (JStr "") →
  events (execute_sql sqlite3 opens body)
  = [Respond 400 (error_json
       "SQL query, CREATE TABLE statement, and INSERT data are required.")]
  ∧ NewDatabase ∉ events (execute_sql sqlite3 opens body).
Proof.
  intros H.
  assert (incomplete body = true) as Hinc.
  { unfold incomplete; cbn zeta.
    destruct H as [-> | ->]; simpl; rewrite ?orb_true_r; reflexivity. }
  rewrite (incomplete_true_rejected _ _ _ Hinc); simpl.
  split; [reflexivity|].
  intros Hin. apply list_elem_of_singleton in Hin. discriminate.
Qed.

Lemma execute_sql_empty_string_witness :
  events (execute_sql (mini_sqlite None) true
            (execution_request (JStr "") (JStr "CREATE TABLE t (id INTEGER)")
               [JStr "INSERT INTO t VALUES (1)"]))
  = [Respond 400 (error_json
       "SQL query, CREATE TABLE statement, and INSERT data are required.")]
  ∧ NewDatabase ∉ events (execute_sql (mini_sqlite None) true
            (execution_request (JStr "") (JStr "CREATE TABLE t (id INTEGER)")
               [JStr "INSERT INTO t VALUES (1)"])).
Proof.
  apply (execute_sql_empty_string (mini_sqlite None) true
           (execution_request (JStr "") (JStr "CREATE TABLE t (id INTEGER)")
              [JStr "INSERT INTO t VALUES (1)"])).
  left; reflexivity.
Defined.

(** ** Input validation of the synthesis endpoint *)

(** C6: a synthesis request whose prompt is absent or the empty string is
    answered with status 400, and the text-generation service is not
    called. *)
Theorem generate_sql_requires_prompt
    (generateContent : string → option string)
    (JSON_parse : string → option json)
    (Number_toString : float → string) (body : json) :
  get "prompt" body = None ∨ get "prompt" body = Some (JStr "") →
  generate_sql generateContent JSON_parse Number_toString body
  = [Respond 400 (error_json "Prompt is required.")]
  ∧ count is_generate
      (generate_sql generateContent JSON_parse Number_toString body) = 0%nat.
Proof.
  intros H. unfold generate_sql; cbn zeta.
  destruct H as [-> | ->]; simpl; split; reflexivity.
Qed.

Lemma generate_sql_requires_prompt_witness :
  generate_sql (λ _, Some "{}") (λ _, Some (JObj [])) (λ _, "0")
    (JObj [("prompt", JStr "")])
  = [Respond 400 (error_json "Prompt is required.")]
  ∧ count is_generate
      (generate_sql (λ _, Some "{}") (λ _, Some (JObj [])) (λ _, "0")
         (JObj [("prompt", JStr "")])) = 0%nat.
Proof.
  apply (generate_sql_requires_prompt (λ _, Some "{}") (λ _, Some (JObj []))
           (λ _, "0") (JObj [("prompt", JStr "")])).
  right; reflexivity.
Defined.

(** ** The execution pipeline *)

Lemma append_empty_r (s : string) : s +:+ "" = s.
Proof.
  induction s as [|a s IH]; [reflexivity|].
  change (String a (s +:+ "") = String a s). by rewrite IH.
Qed.




Lemma append_not_empty (a : ascii) (s m : string) : String a s +:+ m ≠ "".
Proof. discriminate. Qed.

Section Pipeline.
Variable sqlite3 : Sqlite.


(** The statements that succeed are run in order and leave the database
    they build to the rest of the loop. *)
Lemma insert_loop_seeded before rest sqlQuery d0 d1 :
  seeded sqlite3 before d0 = Some d1 →
  insert_loop sqlite3 (before ++ rest) sqlQuery d0
  = map DbRun before ++ insert_loop sqlite3 rest sqlQuery d1.
Proof.
  revert d0. induction before as [|stmt before IH]; intros d0 Hseed; simpl in *.
  - by inversion Hseed.
  - destruct (sql_throws sqlite3 stmt); [discriminate|].
    destruct (run sqlite3 stmt d0) as [m|d']; [discriminate|].
    by rewrite (IH d').
Qed.

Lemma query_step_counts sqlQuery d :
  count is_close (query_step sqlite3 sqlQuery d) = 1%nat
  ∧ count is_respond (query_step sqlite3 sqlQuery d) = 1%nat.
Proof.
  unfold query_step.
  destruct (sql_throws sqlite3 sqlQuery); [split; reflexivity|].
  destruct (all sqlite3 sqlQuery d); split; reflexivity.
Qed.

Lemma insert_loop_counts stmts sqlQuery d :
  count is_close (insert_loop sqlite3 stmts sqlQuery d) = 1%nat
  ∧ count is_respond (insert_loop sqlite3 stmts sqlQuery d) = 1%nat.
Proof.
  revert d. induction stmts as [|stmt rest IH]; intros d; simpl.
  - apply query_step_counts.
  - destruct (sql_throws sqlite3 stmt); [split; reflexivity|].
    destruct (run sqlite3 stmt d) as [m|d']; [split; reflexivity|].
    apply IH.
Qed.

Lemma try_block_counts c stmts sqlQuery :
  count is_close (try_block sqlite3 c stmts sqlQuery) = 1%nat
  ∧ count is_respond (try_block sqlite3 c stmts sqlQuery) = 1%nat.
Proof.
  unfold try_block; simpl.
  destruct (sql_throws sqlite3 c); [split; reflexivity|].
  destruct (run sqlite3 c (empty_db sqlite3)) as [m|d']; [split; reflexivity|].
  apply insert_loop_counts.
Qed.

(** [db.close] comes before the response exactly when the loop ran to
    its end and [db.all] was queued. *)
Lemma insert_loop_order stmts sqlQuery d :
  closed_before_responding false (insert_loop sqlite3 stmts sqlQuery d) = true
  ↔ (∃ d', seeded sqlite3 stmts d = Some d') ∧ sql_throws sqlite3 sqlQuery = None.
Proof.
  revert d. induction stmts as [|stmt rest IH]; intros d; simpl.
  - unfold query_step; simpl.
    destruct (sql_throws sqlite3 sqlQuery) as [m|]; simpl.
    + split; [discriminate|]. by intros [_ ?].
    + destruct (all sqlite3 sqlQuery d); simpl; split; eauto.
  - destruct (sql_throws sqlite3 stmt) as [m|]; simpl.
    + split; [discriminate|]. by intros [[? ?] _].
    + destruct (run sqlite3 stmt d) as [m|d']; simpl.
      * split; [discriminate|]. by intros [[? ?] _].
      * apply IH.
Qed.

End Pipeline.

Lemma execute_sql_opened sqlite3 body :
  incomplete body = false →
  events (execute_sql sqlite3 true body)
  = NewDatabase ::
    try_block sqlite3 (default JNull (get "createTableSql" body))
      (elements (get "insertDataSql" body))
      (default JNull (get "sqlQuery" body)).
Proof. unfold execute_sql; intros ->; reflexivity. Qed.







(** ** Closing the database *)

(** C3, as the code has it: on every path on which the handler of a valid
    request returns, [db.close] is called exactly once; when the database
    opened, the call comes before the response exactly when the table
    definition and every seed statement succeeded and [db.all] was queued
    (success and query failure), and after the response otherwise (schema
    failure, seed failure, [db.all] throwing). *)
Theorem database_closed_on_every_exit (sqlite3 : Sqlite) (opens : bool) (body : json) :
  incomplete body = false →
  returned (execute_sql sqlite3 opens body) = true →
  count is_close (events (execute_sql sqlite3 opens body)) = 1%nat
  ∧ (opens = true →
     (closed_before_responding false (events (execute_sql sqlite3 opens body)) = true
      ↔ (∃ d, seeded sqlite3
                (default JNull (get "createTableSql" body)
                 :: elements (get "insertDataSql" body))
                (empty_db sqlite3) = Some d)
        ∧ sql_throws sqlite3 (default JNull (get "sqlQuery" body)) = None)).
Proof.
  intros Hinc Hret. destruct opens.
  - rewrite (execute_sql_opened _ _ Hinc). split.
    + simpl. apply try_block_counts.
    + intros _. unfold try_block. simpl.
      destruct (sql_throws sqlite3 (default JNull (get "createTableSql" body)));
        simpl; [split; [discriminate | by intros [[? ?] _]]|].
      destruct (run sqlite3 (default JNull (get "createTableSql" body))
                  (empty_db sqlite3)) as [m|d]; simpl;
        [split; [discriminate | by intros [[? ?] _]]|].
      apply insert_loop_order.
  - split; [|discriminate].
    revert Hret. unfold execute_sql. rewrite Hinc. cbn zeta.
    unfold try_block_unopened.
    destruct (sql_throws sqlite3 (default JNull (get "createTableSql" body)));
      [reflexivity|].
    destruct (failed_handle sqlite3); [reflexivity | discriminate].
Qed.

Lemma database_closed_on_every_exit_witness :
  count is_close
    (events (execute_sql (mini_sqlite None) true
               (execution_request (JStr "SELECT * FROM t")
                  (JStr "CREATE TABLE t (id INTEGER)")
                  [JStr "INSERT INTO t VALUES (1)"]))) = 1%nat
  ∧ (true = true →
     (closed_before_responding false
        (events (execute_sql (mini_sqlite None) true
                   (execution_request (JStr "SELECT * FROM t")
                      (JStr "CREATE TABLE t (id INTEGER)")
                      [JStr "INSERT INTO t VALUES (1)"]))) = true
      ↔ (∃ d, seeded (mini_sqlite None)
                [ JStr "CREATE TABLE t (id INTEGER)";
                  JStr "INSERT INTO t VALUES (1)" ] None = Some d)
        ∧ mini_throws (JStr "SELECT * FROM t") = None)).
Proof.
  apply (database_closed_on_every_exit (mini_sqlite None) true
           (execution_request (JStr "SELECT * FROM t")
              (JStr "CREATE TABLE t (id INTEGER)")
              [JStr "INSERT INTO t VALUES (1)"])); reflexivity.
Defined.

(** C3, as the specification words it, fails: when the table definition
    is refused the response is sent first and [db.close] is called after
    it. *)
Lemma schema_failure_answers_before_close :
  events (execute_sql (mini_sqlite None) true
            (execution_request (JStr "SELECT * FROM t")
               (JStr "CREATE TABLE")
               [JStr "INSERT INTO t VALUES (1)"]))
  = [ NewDatabase;
      DbRun (JStr "CREATE TABLE");
      Respond 500 (error_json "Failed to create table: SQLITE_ERROR: syntax error");
      DbClose ]
  ∧ closed_before_responding false
      (events (execute_sql (mini_sqlite None) true
                 (execution_request (JStr "SELECT * FROM t")
                    (JStr "CREATE TABLE")
                    [JStr "INSERT INTO t VALUES (1)"]))) = false.
Proof. split; vm_compute; reflexivity. Qed.

(** ** One response per request *)

(** When the database opens, every request is answered exactly once. *)
Lemma one_response_when_opened (sqlite3 : Sqlite) (body : json) :
  count is_respond (events (execute_sql sqlite3 true body)) = 1%nat.
Proof.
  destruct (incomplete body) eqn:Hinc.
  - by rewrite (incomplete_true_rejected _ _ _ Hinc).
  - rewrite (execute_sql_opened _ _ Hinc). simpl. apply try_block_counts.
Qed.



(** With a table definition that is a string, a request whose database
    fails to open is answered once, by line 127: the statement stays
    queued on the handle, its callback is never called, and the handler
    does not return. *)
Example open_failure_traces :
  execute_sql (mini_sqlite None) false
    (execution_request (JStr "SELECT * FROM t")
       (JStr "CREATE TABLE t (id INTEGER)") [JStr "INSERT INTO t VALUES (1)"])
  = {| events := [ NewDatabase;
                   DbRun (JStr "CREATE TABLE t (id INTEGER)");
                   Respond 500 (error_json "Failed to initialize database.") ];
       returned := false |}.
Proof. reflexivity. Qed.

(** ** Normalisation of the reply of the model *)

Lemma append_cons (a : ascii) (s t : string) : String a s +:+ t = String a (s +:+ t).
Proof. reflexivity. Qed.

Lemma append_assoc (s t u : string) : (s +:+ t) +:+ u = s +:+ (t +:+ u).
Proof.
  induction s as [|a s IH]; [reflexivity|].
  by rewrite !append_cons, IH.
Qed.

Lemma strip_prefix_app (p r : string) : strip_prefix p (p +:+ r) = Some r.
Proof.
  induction p as [|a p IH]; [reflexivity|].
  rewrite append_cons. simpl. by rewrite Ascii.eqb_refl.
Qed.

Lemma strip_prefix_Some (p s r : string) :
  strip_prefix p s = Some r → s = p +:+ r.
Proof.
  revert s. induction p as [|a p IH]; intros s; simpl.
  - by intros [= ->].
  - destruct s as [|b s]; [discriminate|].
    destruct (Ascii.eqb a b) eqn:Hab; [|discriminate].
    apply Ascii.eqb_eq in Hab as ->. intros H.
    by rewrite append_cons, <- (IH _ H).
Qed.

Lemma rev_app_spec (s t : string) : String.rev_app s t = String.rev s +:+ t.
Proof.
  unfold String.rev. revert t. induction s as [|a s IH]; intros t; simpl.
  - reflexivity.
  - rewrite (IH (String a t)), (IH (String a "")).
    by rewrite append_assoc.
Qed.

Lemma rev_append (s t : string) :
  String.rev (s +:+ t) = String.rev t +:+ String.rev s.
Proof.
  induction s as [|a s IH].
  - change ("" +:+ t) with t. by rewrite append_empty_r.
  - rewrite append_cons. unfold String.rev at 1 3. simpl.
    rewrite !rev_app_spec, IH. by rewrite append_assoc.
Qed.

Lemma rev_involutive (s : string) : String.rev (String.rev s) = s.
Proof.
  induction s as [|a s IH]; [reflexivity|].
  unfold String.rev at 2. simpl. rewrite rev_app_spec, rev_append, IH.
  reflexivity.
Qed.

Lemma strip_suffix_app (p r : string) : strip_suffix p (r +:+ p) = Some r.
Proof.
  unfold strip_suffix. rewrite rev_append, strip_prefix_app. simpl.
  by rewrite rev_involutive.
Qed.

Lemma strip_suffix_Some (p s r : string) :
  strip_suffix p s = Some r → s = r +:+ p.
Proof.
  unfold strip_suffix.
  destruct (strip_prefix (String.rev p) (String.rev s)) as [x|] eqn:Hx;
    [|discriminate].
  intros [= <-]. apply strip_prefix_Some in Hx.
  rewrite <- (rev_involutive s), Hx, rev_append. by rewrite rev_involutive.
Qed.

Lemma drop_letters_tag (tag rest : string) :
  all_letters tag = true →
  drop_letters (tag +:+ LF +:+ rest) = LF +:+ rest.
Proof.
  induction tag as [|a tag IH]; [reflexivity|].
  simpl all_letters. intros [Ha Htag]%andb_true_iff.
  rewrite append_cons. simpl drop_letters. rewrite Ha. by apply IH.
Qed.

(** The opening fence, a tag of letters and the line feed after it go. *)
Lemma remove_opening_fence_tag (tag rest : string) :
  all_letters tag = true →
  remove_opening_fence ("```" +:+ tag +:+ LF +:+ rest) = rest.
Proof.
  intros Htag. unfold remove_opening_fence.
  rewrite strip_prefix_app, (drop_letters_tag _ _ Htag).
  unfold drop_newline. by rewrite strip_prefix_app.
Qed.

(** The closing fence and the line feed before it go. *)
Lemma remove_closing_fence_line (content : string) :
  remove_closing_fence (content +:+ LF +:+ "```") = content.
Proof. unfold remove_closing_fence. by rewrite strip_suffix_app. Qed.

(** A text that does not end with a fence is left as it is. *)
Lemma remove_closing_fence_none (s : string) :
  strip_suffix "```" s = None → remove_closing_fence s = s.
Proof.
  intros Hnone. unfold remove_closing_fence.
  destruct (strip_suffix (LF +:+ "```") s) as [r|] eqn:Hr; [|by rewrite Hnone].
  apply strip_suffix_Some in Hr. subst s.
  rewrite <- append_assoc, strip_suffix_app in Hnone. discriminate.
Qed.

(** What the normalisation gets right: when the trimmed reply does not
    start with three backquotes it is handed to the parser as it is; when
    it is a fenced block whose language tag is made of ASCII letters, the
    opening fence with its tag and the closing fence are removed and the
    content between them is handed to the parser (also when the closing
    fence is missing). *)
Theorem cleanedText_fenced (text tag content : string) :
  (startsWith "```" (trim text) = false → cleanedText text = trim text)
  ∧ (all_letters tag = true →
     trim text = "```" +:+ tag +:+ LF +:+ content +:+ LF +:+ "```" →
     cleanedText text = content)
  ∧ (all_letters tag = true →
     trim text = "```" +:+ tag +:+ LF +:+ content →
     strip_suffix "```" content = None →
     cleanedText text = content).
Proof.
  unfold cleanedText; cbn zeta. split_and!.
  - by intros ->.
  - intros Htag ->. unfold startsWith. rewrite strip_prefix_app.
    rewrite (remove_opening_fence_tag _ _ Htag).
    apply remove_closing_fence_line.
  - intros Htag -> Hnone. unfold startsWith. rewrite strip_prefix_app.
    rewrite (remove_opening_fence_tag _ _ Htag).
    by apply remove_closing_fence_none.
Qed.

Lemma cleanedText_fenced_witness :
  cleanedText ("  ```json" +:+ LF +:+ "{}" +:+ LF +:+ "```" +:+ LF) = "{}"
  ∧ cleanedText (" {} " +:+ LF) = trim (" {} " +:+ LF).
Proof.
  split.
  - destruct (cleanedText_fenced
                ("  ```json" +:+ LF +:+ "{}" +:+ LF +:+ "```" +:+ LF) "json" "{}")
      as (_ & Hfenced & _).
    apply Hfenced; reflexivity.
  - destruct (cleanedText_fenced (" {} " +:+ LF) "" "") as (Hplain & _).
    apply Hplain; reflexivity.
Defined.

(** ** The origin allow-list *)

Lemma indexOf_lower_bound (x : string) (l : list string) : -1 ≤ indexOf x l.
Proof.
  induction l as [|y l IH]; simpl; [lia|].
  destruct (String.eqb y x); [lia|].
  destruct (indexOf x l =? -1) eqn:Hi; lia.
Qed.

Lemma indexOf_found (x : string) (l : list string) :
  (indexOf x l =? -1) = false ↔ x ∈ l.
Proof.
  induction l as [|y l IH]; simpl.
  - split; [discriminate|]. by intros ?%elem_of_nil.
  - destruct (String.eqb y x) eqn:Hyx.
    + apply String.eqb_eq in Hyx as ->. split; [|done]. intros _. left.
    + apply String.eqb_neq in Hyx.
      destruct (indexOf x l =? -1) eqn:Hi.
      * split; [discriminate|].
        intros [?|Hin]%elem_of_cons; [congruence|].
        apply IH in Hin. discriminate.
      * split; [|intros _; apply Z.eqb_neq; pose proof (indexOf_lower_bound x l); lia].
        intros _. right. by apply IH.
Qed.

(** C8, as the code has it: a request other than an OPTIONS preflight
    whose Origin header is not empty is passed on to the routes exactly
    when its origin is in the allow-list, and fails with [Not allowed by
    CORS] otherwise; without an Origin header, or with an empty one, it is
    passed on whatever the list holds; an OPTIONS preflight is answered
    by the middleware of line 14, from whatever origin it comes. *)
Theorem origin_allow_list (allowedOrigins : list string) (r : incoming) (o : string) :
  (verb r ≠ "OPTIONS" → Origin r = Some o → o ≠ "" →
   (middleware allowedOrigins r = Next ↔ o ∈ allowedOrigins)
   ∧ (o ∉ allowedOrigins →
      middleware allowedOrigins r = NextError "Not allowed by CORS"))
  ∧ (verb r ≠ "OPTIONS" → Origin r = None ∨ Origin r = Some "" →
     middleware allowedOrigins r = Next)
  ∧ (verb r = "OPTIONS" → middleware allowedOrigins r = Ended204).
Proof.
  unfold middleware, cors. split_and!.
  - intros Hverb Ho Hne.
    rewrite (proj2 (String.eqb_neq _ _) Hverb), Ho. unfold origin.
    change (truthy (JStr <$> Some o)) with (negb (bool_decide (o = ""))).
    change (default "" (Some o)) with o.
    rewrite bool_decide_eq_false_2 by done.
    change (negb (negb false)) with false. rewrite orb_false_l.
    destruct (indexOf o allowedOrigins =? -1) eqn:Hi; cbn [negb].
    + assert (o ∉ allowedOrigins) as Hout.
      { intros Hin%indexOf_found. congruence. }
      split; [|done]. split; [discriminate | done].
    + assert (o ∈ allowedOrigins) as Hin.
      { by apply indexOf_found. }
      split; [|done]. by split.
  - intros Hverb Ho.
    rewrite (proj2 (String.eqb_neq _ _) Hverb).
    by destruct Ho as [-> | ->].
  - intros ->. reflexivity.
Qed.

Lemma origin_allow_list_witness :
  (middleware ["http://localhost:5173"] {| verb := "POST"; Origin := Some "http://localhost:5173" |}
   = Next ↔ "http://localhost:5173" ∈ ["http://localhost:5173"])
  ∧ middleware ["http://localhost:5173"] {| verb := "POST"; Origin := Some "https://evil.example" |}
    = NextError "Not allowed by CORS"
  ∧ middleware ["http://localhost:5173"] {| verb := "GET"; Origin := None |} = Next
  ∧ middleware ["http://localhost:5173"] {| verb := "OPTIONS"; Origin := Some "https://evil.example" |}
    = Ended204.
Proof.
  split_and!.
  - destruct (origin_allow_list ["http://localhost:5173"]
                {| verb := "POST"; Origin := Some "http://localhost:5173" |}
                "http://localhost:5173") as (Hlisted & _).
    apply Hlisted; [discriminate | reflexivity | discriminate].
  - destruct (origin_allow_list ["http://localhost:5173"]
                {| verb := "POST"; Origin := Some "https://evil.example" |}
                "https://evil.example") as (Hlisted & _).
    apply Hlisted; [discriminate | reflexivity | discriminate |].
    intros Hin%indexOf_found. discriminate.
  - destruct (origin_allow_list ["http://localhost:5173"] {| verb := "GET"; Origin := None |} "")
      as (_ & Hbare & _).
    apply Hbare; [discriminate | by left].
  - destruct (origin_allow_list ["http://localhost:5173"]
                {| verb := "OPTIONS"; Origin := Some "https://evil.example" |} "")
      as (_ & _ & Hpreflight).
    by apply Hpreflight.
Defined.

(** C8, as the specification words it, fails twice: a request that
    carries an Origin header with an empty value is passed on although
    the empty string is not in the allow-list, and an OPTIONS preflight
    from an origin that is not in the list is answered and not turned
    away. *)
Lemma empty_origin_proceeds :
  middleware ["http://localhost:5173"] {| verb := "POST"; Origin := Some "" |} = Next
  ∧ ("" ∉ ["http://localhost:5173"])
  ∧ middleware ["http://localhost:5173"]
      {| verb := "OPTIONS"; Origin := Some "https://evil.example" |} = Ended204
  ∧ "https://evil.example" ∉ ["http://localhost:5173"].
Proof.
  split_and!; try reflexivity; intros Hin%indexOf_found; discriminate.
Qed.

(** ** Requests do not see each other *)

Lemma closes_app (tr1 tr2 : list event) :
  closes (tr1 ++ tr2) = closes tr1 || closes tr2.
Proof. apply existsb_app. Qed.

Lemma closes_catch_finally (message : string) : closes (catch_finally message) = true.
Proof. reflexivity. Qed.

Section Isolation.
Variable E : Engine.

Lemma kept_frame (t : task) (d : content E) (dbs : gmap nat (content E)) (k : nat) :
  k ≠ handle t → kept E t d dbs !! k = dbs !! k.
Proof.
  intros Hk. assert (handle t ≠ k) as Hk' by congruence.
  unfold kept. destruct (stage_of t); try destruct (closes (done t));
    by rewrite ?lookup_insert_ne, ?lookup_delete_ne.
Qed.

Lemma kept_at_work (t : task) (d : content E) (dbs : gmap nat (content E)) :
  at_work t → kept E t d dbs !! handle t = Some d.
Proof.
  intros [Hfin _]. unfold kept.
  destruct (stage_of t); try done; apply lookup_insert_eq.
Qed.

Lemma idle_consistent : consistent E (idle E).
Proof. repeat split; intros *; simpl; by rewrite ?lookup_nil. Qed.

(** A task is added; the databases below the next handle stay. *)
Lemma extend_consistent (w : server E) (t : task)
    (dbs : gmap nat (content E)) (n : nat) :
  consistent E w →
  (∀ k, (k < next_handle w)%nat → dbs !! k = databases w !! k) →
  (at_work t →
   handle t = next_handle w ∧ (next_handle w < n)%nat ∧ is_Some (dbs !! handle t)) →
  (next_handle w ≤ n)%nat →
  consistent E {| databases := dbs; next_handle := n; tasks := tasks w ++ [t] |}.
Proof.
  intros (Hhoused & Hapart & Hbelow) Hframe Hfresh Hle.
  split_and!; simpl.
  - intros i x [Hi | [_ Hi]]%lookup_app_Some Hx.
    + rewrite Hframe; [by eapply Hhoused | by eapply Hbelow].
    + apply list_lookup_singleton_Some in Hi as [_ <-]. by apply Hfresh.
  - intros i j ti tj [Hi | [Hli Hi]]%lookup_app_Some
      [Hj | [Hlj Hj]]%lookup_app_Some Hij Hworki Hworkj.
    + by eapply Hapart.
    + apply list_lookup_singleton_Some in Hj as [_ <-].
      destruct (Hfresh Hworkj) as (-> & _ & _).
      pose proof (Hbelow _ _ Hi Hworki). lia.
    + apply list_lookup_singleton_Some in Hi as [_ <-].
      destruct (Hfresh Hworki) as (-> & _ & _).
      pose proof (Hbelow _ _ Hj Hworkj). lia.
    + apply list_lookup_singleton_Some in Hi as [Hi _].
      apply list_lookup_singleton_Some in Hj as [Hj _]. lia.
  - intros i x [Hi | [_ Hi]]%lookup_app_Some Hx.
    + pose proof (Hbelow _ _ Hi Hx). lia.
    + apply list_lookup_singleton_Some in Hi as [_ <-].
      destruct (Hfresh Hx) as (-> & ? & _). lia.
Qed.

Lemma arrive_consistent (a : ambient E) (opens : bool) (body : json) (w : server E) :
  consistent E w → consistent E (arrive E a opens body w).
Proof.
  intros Hw. unfold arrive; cbn zeta.
  destruct (incomplete body) eqn:Hinc.
  - apply extend_consistent; try done. by intros [? _].
  - destruct opens.
    + destruct (refuses E (default JNull (get "createTableSql" body)))
        as [m|] eqn:Hthrow.
      * apply extend_consistent; try done; [|by intros [? _]|lia].
        intros k Hk. apply kept_frame. simpl. lia.
      * apply extend_consistent; try done; [| |lia].
        -- intros k Hk. apply kept_frame. simpl. lia.
        -- intros Hwork. split_and!; [done | lia |].
           by rewrite (kept_at_work _ _ _ Hwork).
    + apply extend_consistent; try done; [|lia].
      intros [Hfin Hstall]. simpl in Hfin, Hstall.
      by destruct (returned _).
Qed.

(** One step of a task: it keeps its handle and its request, touches no
    database but its own, and has its database as long as it is at
    work. *)
Lemma resume_shape (a : ambient E) (t t' : task) (dbs dbs' : gmap nat (content E)) :
  resume E a t dbs = (t', dbs') →
  handle t' = handle t ∧ request t' = request t ∧ opened t' = opened t
  ∧ (at_work t' → at_work t)
  ∧ (∀ k, (at_work t → k ≠ handle t) → dbs' !! k = dbs !! k)
  ∧ (is_Some (dbs !! handle t) → at_work t' → is_Some (dbs' !! handle t')).
Proof.
  unfold resume; cbn zeta. intros Hstep.
  assert (∀ u d,
    (u, kept E u d dbs) = (t', dbs') →
    handle u = handle t → request u = request t → opened u = opened t →
    at_work t →
    handle t' = handle t ∧ request t' = request t ∧ opened t' = opened t
    ∧ (at_work t' → at_work t)
    ∧ (∀ k, (at_work t → k ≠ handle t) → dbs' !! k = dbs !! k)
    ∧ (is_Some (dbs !! handle t) → at_work t' → is_Some (dbs' !! handle t')))
    as Hstepped.
  { intros u d [= <- <-] Hh Hr Ho Hwork. split_and!; try done.
    - intros k Hk. apply kept_frame. rewrite Hh. by apply Hk.
    - intros _ Hu. by rewrite (kept_at_work _ _ _ Hu). }
  destruct (stage_of t) as [failed stmt stmts| | |] eqn:Hstage.
  - destruct (dbs !! handle t) as [d|] eqn:Hd.
    + assert (at_work t) as Hwork by (unfold at_work; by rewrite Hstage).
      destruct (execute E a stmt d) as [m|d'].
      * by apply (Hstepped _ _ Hstep).
      * destruct (next_call E stmts _) as [evs st].
        by apply (Hstepped _ _ Hstep).
    + injection Hstep as <- <-. by split_and!.
  - destruct (dbs !! handle t) as [d|] eqn:Hd.
    + assert (at_work t) as Hwork by (unfold at_work; by rewrite Hstage).
      by apply (Hstepped _ _ Hstep).
    + injection Hstep as <- <-. by split_and!.
  - injection Hstep as <- <-. by split_and!.
  - injection Hstep as <- <-. by split_and!.
Qed.

Lemma act_consistent (w : server E) (x : action (ambient E)) :
  consistent E w → consistent E (act E w x).
Proof.
  intros Hw. destruct x as [a opens body | a i]; simpl.
  { by apply arrive_consistent. }
  destruct (tasks w !! i) as [t|] eqn:Hi; [|done].
  destruct (resume E a t (databases w)) as [t' dbs'] eqn:Hstep.
  destruct Hw as (Hhoused & Hapart & Hbelow).
  destruct (resume_shape _ _ _ _ _ Hstep)
    as (Hhandle & _ & _ & Hwork & Hframe & Hkeeps).
  split_and!; simpl.
  - intros j x [(<- & <- & _) | [Hij Hj]]%list_lookup_insert_Some Hx.
    + apply Hkeeps; [|done]. apply (Hhoused _ _ Hi). auto.
    + rewrite Hframe; [by eapply Hhoused|].
      intros Ht Heq. by apply (Hapart _ _ _ _ Hj Hi).
  - intros j k tj tk
      [(<- & <- & _) | [Hij Hj]]%list_lookup_insert_Some
      [(<- & <- & _) | [Hik Hk]]%list_lookup_insert_Some Hjk Hlj Hlk;
      try done.
    + rewrite Hhandle. apply (Hapart _ _ _ _ Hi Hk); auto.
    + rewrite Hhandle. apply (Hapart _ _ _ _ Hj Hi); auto.
    + by eapply Hapart.
  - intros j x [(<- & <- & _) | [Hij Hj]]%list_lookup_insert_Some Hx.
    + rewrite Hhandle. apply (Hbelow _ _ Hi). auto.
    + by eapply Hbelow.
Qed.

Lemma serve_consistent (schedule : list (action (ambient E))) (w : server E) :
  consistent E w → consistent E (serve E schedule w).
Proof.
  revert w. induction schedule as [|x schedule IH]; intros w Hw; simpl; [done|].
  apply IH. by apply act_consistent.
Qed.

Variable now : ambient E.
Hypothesis engine_timeless : timeless E.

Lemma remaining_frame (t : task) (dbs dbs' : gmap nat (content E)) :
  (at_work t → dbs' !! handle t = dbs !! handle t) →
  remaining E now t dbs' = remaining E now t dbs.
Proof.
  unfold remaining, at_work. destruct (stage_of t); intros H;
    try rewrite H by done; reflexivity.
Qed.

Lemma on_track_frame (t : task) (dbs dbs' : gmap nat (content E)) :
  (at_work t → dbs' !! handle t = dbs !! handle t) →
  on_track E now dbs t → on_track E now dbs' t.
Proof.
  intros Hframe (rest & Hrest & Hdone). exists rest.
  by rewrite (remaining_frame _ _ _ Hframe).
Qed.

Lemma idle_faithful : faithful E now (idle E).
Proof. intros i t. simpl. by rewrite lookup_nil. Qed.

Lemma arrive_faithful (a : ambient E) (opens : bool) (body : json) (w : server E) :
  consistent E w → faithful E now w → faithful E now (arrive E a opens body w).
Proof.
  intros (_ & _ & Hbelow) Hw.
  assert (∀ t dbs,
    (∀ k, (k < next_handle w)%nat → dbs !! k = databases w !! k) →
    on_track E now dbs t →
    ∀ i x, (tasks w ++ [t]) !! i = Some x → on_track E now dbs x) as Hextend.
  { intros t dbs Hframe Ht i x [Hi | [_ Hi]]%lookup_app_Some.
    - apply (on_track_frame x (databases w)); [|by eapply Hw].
      intros Hx. apply Hframe. by eapply Hbelow.
    - by apply list_lookup_singleton_Some in Hi as [_ <-]. }
  unfold faithful, arrive; cbn zeta.
  destruct (incomplete body) eqn:Hinc; simpl.
  - apply Hextend; [done|].
    exists []. split; [reflexivity|]. unfold alone; simpl.
    by rewrite (incomplete_true_rejected _ _ _ Hinc).
  - destruct opens; simpl.
    + destruct (refuses E (default JNull (get "createTableSql" body)))
        as [m|] eqn:Hthrow; apply Hextend.
      * intros k Hk. apply kept_frame. simpl. lia.
      * exists []. split; [reflexivity|]. unfold alone; simpl.
        rewrite (execute_sql_opened _ _ Hinc). unfold try_block. simpl.
        by rewrite Hthrow.
      * intros k Hk. apply kept_frame. simpl. lia.
      * unfold on_track, remaining, alone, kept; simpl.
        rewrite lookup_insert_eq. eexists; split; [reflexivity|].
        rewrite (execute_sql_opened _ _ Hinc). unfold try_block. simpl.
        by rewrite Hthrow.
    + apply Hextend; [done|].
      exists []. split.
      * unfold remaining; simpl. by destruct (returned _).
      * unfold alone; simpl. unfold execute_sql. by rewrite Hinc, ?app_nil_r.
Qed.

(** One step of a task that is on track leaves it on track. *)
Lemma resume_sound (a : ambient E) (t t' : task) (dbs dbs' : gmap nat (content E)) :
  resume E a t dbs = (t', dbs') →
  on_track E now dbs t → on_track E now dbs' t'.
Proof.
  unfold resume, on_track, remaining, alone; cbn zeta.
  intros Hstep (rest & Hrest & Hdone).
  destruct (stage_of t) as [failed stmt stmts| | |] eqn:Hstage.
  - destruct (dbs !! handle t) as [d|] eqn:Hd; [|discriminate].
    injection Hrest as <-.
    rewrite (proj1 (engine_timeless a now stmt d)) in Hstep.
    destruct (execute E now stmt d) as [m|d'] eqn:Hrun.
    + injection Hstep as <- <-; simpl.
      exists []. by rewrite app_nil_r.
    + destruct stmts as [|stmt' stmts']; simpl in Hstep, Hdone.
      * unfold query_step in Hdone. simpl in Hdone.
        destruct (refuses E (default JNull (get "sqlQuery" (request t))))
          as [m|] eqn:Hthrow; injection Hstep as <- <-; simpl.
        -- exists []. by rewrite app_nil_r.
        -- unfold kept; simpl.
           rewrite lookup_insert_eq. eexists; split; [reflexivity|].
           rewrite <- Hdone, <- app_assoc. simpl.
           by destruct (select E now _ d').
      * destruct (refuses E stmt') as [m|] eqn:Hthrow;
          injection Hstep as <- <-; simpl.
        -- exists []. by rewrite app_nil_r.
        -- unfold kept; simpl.
           rewrite lookup_insert_eq. eexists; split; [reflexivity|].
           by rewrite <- Hdone, <- app_assoc.
  - destruct (dbs !! handle t) as [d|] eqn:Hd; [|discriminate].
    injection Hrest as <-.
    rewrite (proj2 (engine_timeless a now _ d)) in Hstep.
    injection Hstep as <- <-; simpl.
    exists []. by rewrite app_nil_r.
  - injection Hstep as <- <-. rewrite Hstage. by exists rest.
  - injection Hstep as <- <-. rewrite Hstage. by exists rest.
Qed.

Lemma act_faithful (w : server E) (x : action (ambient E)) :
  consistent E w → faithful E now w → faithful E now (act E w x).
Proof.
  intros Hc Hw. destruct x as [a opens body | a i]; simpl.
  { by apply arrive_faithful. }
  destruct (tasks w !! i) as [t|] eqn:Hi; [|done].
  destruct (resume E a t (databases w)) as [t' dbs'] eqn:Hstep.
  destruct Hc as (_ & Hapart & _).
  destruct (resume_shape _ _ _ _ _ Hstep) as (_ & _ & _ & _ & Hframe & _).
  intros j x; simpl.
  intros [(<- & <- & _) | [Hij Hj]]%list_lookup_insert_Some.
  - eapply resume_sound; [exact Hstep | by eapply Hw].
  - apply (on_track_frame x (databases w)); [|by eapply Hw].
    intros Hx. apply Hframe. intros Ht Heq.
    by apply (Hapart _ _ _ _ Hj Hi).
Qed.

Lemma serve_faithful (schedule : list (action (ambient E))) (w : server E) :
  consistent E w → faithful E now w → faithful E now (serve E schedule w).
Proof.
  revert w. induction schedule as [|x schedule IH]; intros w Hc Hw; simpl; [done|].
  apply IH; [by apply act_consistent | by apply act_faithful].
Qed.

(** Whatever else the server does meanwhile, a request that has
    finished made the calls it makes when it is served alone. *)
Lemma served_as_alone (schedule : list (action (ambient E))) (t : task) :
  t ∈ tasks (serve E schedule (idle E)) →
  stage_of t = Finished →
  done t = events (execute_sql (engine_at E now) (opened t) (request t)).
Proof.
  intros [i Hi]%list_elem_of_lookup Hfin.
  destruct (serve_faithful schedule _ idle_consistent idle_faithful _ _ Hi)
    as (rest & Hrest & Hdone).
  unfold remaining in Hrest. rewrite Hfin in Hrest. injection Hrest as <-.
  by rewrite app_nil_r in Hdone.
Qed.

End Isolation.

(** The handler reads nothing of the body but the three artifacts. *)
Lemma execute_sql_same_artifacts (sqlite3 : Sqlite) (opens : bool) (b1 b2 : json) :
  get "sqlQuery" b1 = get "sqlQuery" b2 →
  get "createTableSql" b1 = get "createTableSql" b2 →
  get "insertDataSql" b1 = get "insertDataSql" b2 →
  execute_sql sqlite3 opens b1 = execute_sql sqlite3 opens b2.
Proof.
  intros Hq Hc Hi. unfold execute_sql, incomplete. by rewrite Hq, Hc, Hi.
Qed.


Lemma mini_engine_timeless (dead : option string) : timeless (mini_engine dead).
Proof. by intros a a' sql d. Qed.



(** The three requests of [busy_schedule] once all their statements have
    completed: the two scenario requests got one row each, the request
    between them its two rows. *)
Example busy_schedule_answers :
  map done (tasks (serve (mini_engine None) busy_schedule (idle (mini_engine None))))
  = [ [ NewDatabase;
        DbRun (JStr "CREATE TABLE t (id INTEGER)");
        DbRun (JStr "INSERT INTO t VALUES (1)");
        DbAll (JStr "SELECT * FROM t");
        DbClose;
        Respond 200 (JObj [("results", JArr [JObj [("id", JNum 1%float)]])]) ];
      [ NewDatabase;
        DbRun (JStr "CREATE TABLE t (id INTEGER)");
        DbRun (JStr "INSERT INTO t VALUES (1)");
        DbRun (JStr "INSERT INTO t VALUES (1)");
        DbAll (JStr "SELECT * FROM t");
        DbClose;
        Respond 200 (JObj [("results", JArr [JObj [("id", JNum 1%float)];
                                             JObj [("id", JNum 1%float)]])]) ];
      [ NewDatabase;
        DbRun (JStr "CREATE TABLE t (id INTEGER)");
        DbRun (JStr "INSERT INTO t VALUES (1)");
        DbAll (JStr "SELECT * FROM t");
        DbClose;
        Respond 200 (JObj [("results", JArr [JObj [("id", JNum 1%float)]])]) ] ].
Proof. vm_compute. reflexivity. Qed.

(** ** The answer of a pipeline that reaches the query *)

(** When the table definition and every seed statement succeed and
    [db.all] does not throw on the query, each statement is run once, in
    order, then the query; the answer comes from the
    callback of [db.all]: the rows under the key [results], or status 500
    and the message of the engine after [Failed to execute query: ]. *)
Theorem execute_sql_answers_query (sqlite3 : Sqlite) (body : json) (d : DB sqlite3) :
  incomplete body = false →
  seeded sqlite3
    (default JNull (get "createTableSql" body) :: elements (get "insertDataSql" body))
    (empty_db sqlite3) = Some d →
  sql_throws sqlite3 (default JNull (get "sqlQuery" body)) = None →
  events (execute_sql sqlite3 true body)
  = NewDatabase ::
    map DbRun (default JNull (get "createTableSql" body)
               :: elements (get "insertDataSql" body))
    ++ [ DbAll (default JNull (get "sqlQuery" body));
         DbClose;
         match all sqlite3 (default JNull (get "sqlQuery" body)) d with
         | Failure m => Respond 500 (error_json ("Failed to execute query: " +:+ m))
         | Success rows => Respond 200 (JObj [("results", JArr rows)])
         end ].
Proof.
  intros Hinc Hseed Hthrow.
  rewrite (execute_sql_opened _ _ Hinc). unfold try_block.
  simpl in Hseed. simpl map.
  destruct (sql_throws sqlite3 (default JNull (get "createTableSql" body)));
    [discriminate|].
  destruct (run sqlite3 (default JNull (get "createTableSql" body))
              (empty_db sqlite3)) as [?|d0]; [discriminate|].
  rewrite <- (app_nil_r (elements (get "insertDataSql" body))) at 1.
  rewrite (insert_loop_seeded _ _ _ _ _ _ Hseed). simpl.
  unfold query_step. rewrite Hthrow.
  do 2 f_equal. f_equal.
  by destruct (all sqlite3 _ d).
Qed.

Lemma execute_sql_answers_query_witness :
  events (execute_sql (mini_sqlite None) true scenario)
  = NewDatabase ::
    map DbRun [JStr "CREATE TABLE t (id INTEGER)"; JStr "INSERT INTO t VALUES (1)"]
    ++ [ DbAll (JStr "SELECT * FROM t");
         DbClose;
         match mini_all (JStr "SELECT * FROM t") (Some [JObj [("id", JNum 1%float)]]) with
         | Failure m => Respond 500 (error_json ("Failed to execute query: " +:+ m))
         | Success rows => Respond 200 (JObj [("results", JArr rows)])
         end ].
Proof.
  apply (execute_sql_answers_query (mini_sqlite None) scenario
           (Some [JObj [("id", JNum 1%float)]])); reflexivity.
Defined.

(** ** What the synthesis endpoint answers *)

(** With a truthy prompt that the template literal can turn into a
    string, the service is called once, with the instruction built from
    that string.  A call that fails is answered with status 500; so is a
    reply that does not parse after normalisation.  Of a reply that parses
    to something other than [null] the three fields are passed on as they
    are, a missing one left out.  With a truthy prompt that the template
    literal cannot turn into a string (an object with a [toString]
    property of its own, or an array that holds one) the service is not
    called and the answer has status 500. *)
Theorem generate_sql_outcomes
    (generateContent : string → option string)
    (JSON_parse : string → option json)
    (Number_toString : float → string) (body : json) :
  truthy (get "prompt" body) = true →
  (∀ s, toString Number_toString (default JNull (get "prompt" body)) = Some s →
     generate_sql generateContent JSON_parse Number_toString body
     = [ GenerateContent (instruction_head +:+ s +:+ instruction_tail);
         match generateContent (instruction_head +:+ s +:+ instruction_tail) with
         | None => Respond 500 (error_json "Failed to generate SQL. Please try again.")
         | Some text =>
             match JSON_parse (cleanedText text) with
             | None =>
                 Respond 500 (error_json
                   "Failed to parse Gemini response. It might not be valid JSON.")
             | Some JNull =>
                 Respond 500 (error_json "Failed to generate SQL. Please try again.")
             | Some parsed => Respond 200 (picked parsed)
             end
         end ])
  ∧ (toString Number_toString (default JNull (get "prompt" body)) = None →
     generate_sql generateContent JSON_parse Number_toString body
     = [Respond 500 (error_json "Failed to generate SQL. Please try again.")])
  ∧ (∀ props,
       get "prompt" body = Some (JObj props) →
       (toString Number_toString (JObj props) = None
        ↔ is_Some (lookup_prop "toString" props))).
Proof.
  intros Hprompt. unfold generate_sql, geminiPrompt; cbn zeta.
  rewrite Hprompt. cbn [negb]. cbv iota. split_and!.
  - intros s ->. cbn [fmap option_fmap option_map].
    f_equal. destruct (generateContent _) as [text|]; [|reflexivity].
    by destruct (JSON_parse (cleanedText text)) as [[]|].
  - by intros ->.
  - intros props _. cbn [toString].
    destruct (lookup_prop "toString" props); split;
      first [done | by eauto | by intros [? ?]].
Qed.

Lemma generate_sql_outcomes_witness :
  generate_sql (λ _, Some "```json{}```")
    (λ s, if String.eqb s "{}" then Some (JObj []) else None) (λ _, "0")
    (JObj [("prompt", JStr "list students older than 20")])
  = [ GenerateContent
        (instruction_head +:+ "list students older than 20" +:+ instruction_tail);
      Respond 200 (JObj []) ]
  ∧ generate_sql (λ _, Some "{}") (λ _, Some (JObj [])) (λ _, "0")
      (JObj [("prompt", JObj [("toString", JStr "x")])])
    = [Respond 500 (error_json "Failed to generate SQL. Please try again.")].
Proof.
  split.
  - destruct (generate_sql_outcomes (λ _, Some "```json{}```")
                (λ s, if String.eqb s "{}" then Some (JObj []) else None) (λ _, "0")
                (JObj [("prompt", JStr "list students older than 20")]) eq_refl)
      as (Hcalled & _).
    rewrite (Hcalled "list students older than 20" eq_refl). reflexivity.
  - destruct (generate_sql_outcomes (λ _, Some "{}") (λ _, Some (JObj [])) (λ _, "0")
                (JObj [("prompt", JObj [("toString", JStr "x")])]) eq_refl)
      as (_ & Hthrown & _).
    apply Hthrown. reflexivity.
Defined.

(** ** Every request comes to an end *)

Section Progress.
Variable E : Engine.

(** A completion brings a task that has its database nearer to its
    end. *)
Lemma resume_budget (a : ambient E) (t t' : task) (dbs dbs' : gmap nat (content E)) :
  resume E a t dbs = (t', dbs') →
  (at_work t → is_Some (dbs !! handle t)) →
  (budget t' ≤ Nat.pred (budget t))%nat
  ∧ (stage_of t ≠ Stalled → stage_of t' ≠ Stalled).
Proof.
  unfold resume, budget, at_work; cbn zeta.
  intros Hstep Hhoused.
  destruct (stage_of t) as [failed stmt stmts| | |] eqn:Hstage.
  - destruct (dbs !! handle t) as [d|].
    2:{ by destruct Hhoused as [? [=]]. }
    destruct (execute E a stmt d) as [m|d'].
    { injection Hstep as <- <-; simpl; split; (lia || done). }
    destruct stmts as [|stmt' stmts']; simpl in Hstep.
    + destruct (refuses E _); injection Hstep as <- <-; simpl; split; (lia || done).
    + destruct (refuses E stmt'); injection Hstep as <- <-; simpl; split; (lia || done).
  - destruct (dbs !! handle t) as [d|].
    2:{ by destruct Hhoused as [? [=]]. }
    injection Hstep as <- <-; simpl; split; (lia || done).
  - injection Hstep as <- <-. rewrite Hstage. split; (lia || done).
  - injection Hstep as <- <-. rewrite Hstage. split; (lia || done).
Qed.

Lemma resumed_until_finished (a : ambient E) (i n : nat) (w : server E) (t : task) :
  consistent E w →
  tasks w !! i = Some t →
  stage_of t ≠ Stalled →
  (budget t ≤ n)%nat →
  ∃ t', tasks (serve E (replicate n (Complete a i)) w) !! i = Some t'
        ∧ stage_of t' = Finished
        ∧ request t' = request t ∧ opened t' = opened t.
Proof.
  revert w t. induction n as [|n IH]; intros w t Hw Hi Hgo Hn; simpl.
  - exists t. split_and!; try done.
    unfold budget in Hn. destruct (stage_of t); [lia | lia | done | done].
  - pose proof (act_consistent E w (Complete a i) Hw) as Hw'.
    simpl in Hw' |- *. rewrite Hi in Hw' |- *.
    destruct (resume E a t (databases w)) as [t' dbs'] eqn:Hstep.
    destruct Hw as (Hhoused & _).
    destruct (resume_budget _ _ _ _ _ Hstep (Hhoused _ _ Hi)) as [Hless Hgo'].
    destruct (resume_shape _ _ _ _ _ _ Hstep) as (_ & Hreq & Hopen & _).
    destruct (IH _ t' Hw') as (t'' & Hi'' & Hfin & Hreq'' & Hopen'').
    { simpl. apply list_lookup_insert_eq. by eapply lookup_lt_Some. }
    { by apply Hgo'. }
    { lia. }
    exists t''. split_and!; try done; congruence.
Qed.

(** A request whose database failed to open and whose table definition
    was queued stays where it is, whatever the server does. *)
Lemma stalled_stays (schedule : list (action (ambient E))) (w : server E)
    (i : nat) (t : task) :
  tasks w !! i = Some t →
  stage_of t = Stalled →
  tasks (serve E schedule w) !! i = Some t.
Proof.
  revert w. induction schedule as [|x schedule IH]; intros w Hi Hstall; simpl; [done|].
  apply IH; [|done].
  destruct x as [a opens body | a j]; simpl.
  - unfold arrive; cbn zeta.
    destruct (incomplete body), opens; simpl;
      apply lookup_app_l_Some; exact Hi.
  - destruct (tasks w !! j) as [u|] eqn:Hj; [|done].
    destruct (resume E a u (databases w)) as [u' dbs'] eqn:Hstep; simpl.
    destruct (decide (j = i)) as [->|Hne].
    + rewrite Hi in Hj. injection Hj as <-.
      unfold resume in Hstep. rewrite Hstall in Hstep. injection Hstep as <- _.
      rewrite list_lookup_insert_eq; [done | by eapply lookup_lt_Some].
    + by rewrite list_lookup_insert_ne.
Qed.

End Progress.

(** Whatever the server has done so far and whatever the engine answers,
    a request it has received and that is not waiting on a database that
    failed to open comes to an end once the statements it waits for have
    completed; when the answers of the engine depend on the statement and
    the content of the database alone, it has then made the calls it
    makes when served alone. *)
Theorem every_request_finishes (E : Engine) (a : ambient E)
    (schedule : list (action (ambient E))) (i : nat) (t : task) :
  tasks (serve E schedule (idle E)) !! i = Some t →
  stage_of t ≠ Stalled →
  ∃ t',
    tasks (serve E (schedule ++ replicate (budget t) (Complete a i)) (idle E))
      !! i = Some t'
    ∧ stage_of t' = Finished
    ∧ request t' = request t
    ∧ (timeless E →
       ∀ now, done t' = events (execute_sql (engine_at E now) (opened t) (request t))).
Proof.
  intros Hi Hgo.
  pose proof (serve_consistent E schedule _ (idle_consistent E)) as Hw.
  destruct (resumed_until_finished E a i (budget t) _ t Hw Hi Hgo (le_n _))
    as (t' & Hi' & Hfin & Hreq & Hopen).
  unfold serve in *. rewrite fold_left_app.
  exists t'. split_and!; try done.
  intros Htimeless now.
  rewrite <- Hreq, <- Hopen.
  apply (served_as_alone E now Htimeless
           (schedule ++ replicate (budget t) (Complete a i))); [|done].
  unfold serve. rewrite fold_left_app. by eapply list_elem_of_lookup_2.
Qed.

Lemma every_request_finishes_witness :
  ∃ t',
    tasks (serve (mini_engine None)
             ([Arrive () true scenario; Arrive () true two_rows; Complete () 1%nat]
              ++ replicate 3 (Complete () 0%nat))
             (idle (mini_engine None))) !! 0%nat = Some t'
    ∧ stage_of t' = Finished
    ∧ done t' = events (execute_sql (mini_sqlite None) true scenario).
Proof.
  destruct (every_request_finishes (mini_engine None) ()
              [Arrive () true scenario; Arrive () true two_rows; Complete () 1%nat]
              0%nat
              {| request := scenario; opened := true; handle := 0;
                 stage_of := AwaitRun "Failed to create table: "
                               (JStr "CREATE TABLE t (id INTEGER)")
                               [JStr "INSERT INTO t VALUES (1)"];
                 done := [NewDatabase; DbRun (JStr "CREATE TABLE t (id INTEGER)")] |})
    as (t' & Hi & Hfin & _ & Halone).
  - vm_compute. reflexivity.
  - discriminate.
  - exists t'. split_and!; [exact Hi | exact Hfin |].
    exact (Halone (mini_engine_timeless None) ()).
Defined.

(** A request that passed validation, whose database failed to open and
    whose table definition was queued on it, never comes to an end: the
    handler waits at line 134 for ever, the one response is that of line
    127, and [db.close] is never called. *)
Theorem stalled_request_never_returns (E : Engine) (a : ambient E)
    (before after : list (action (ambient E))) (body : json) :
  incomplete body = false →
  refuses E (default JNull (get "createTableSql" body)) = None →
  abandoned E = None →
  ∃ h,
    tasks (serve E (before ++ Arrive a false body :: after) (idle E))
      !! length (tasks (serve E before (idle E)))
    = Some {| request := body; opened := false; handle := h; stage_of := Stalled;
              done := [ NewDatabase;
                        DbRun (default JNull (get "createTableSql" body));
                        init_failure ] |}.
Proof.
  intros Hinc Hthrow Hdead.
  exists (next_handle (serve E before (idle E))).
  unfold serve. rewrite fold_left_app. simpl.
  apply stalled_stays; [|done].
  unfold arrive; cbn zeta. rewrite Hinc. simpl.
  unfold try_block_unopened; simpl. rewrite Hthrow, Hdead. simpl.
  by rewrite list_lookup_middle.
Qed.

Lemma stalled_request_never_returns_witness :
  ∃ h,
    tasks (serve (mini_engine None)
             ([Arrive () true two_rows] ++ Arrive () false scenario ::
              [Complete () 1; Complete () 0; Complete () 1; Arrive () true scenario;
               Complete () 1]%nat)
             (idle (mini_engine None))) !! 1%nat
    = Some {| request := scenario; opened := false; handle := h; stage_of := Stalled;
              done := [ NewDatabase;
                        DbRun (JStr "CREATE TABLE t (id INTEGER)");
                        init_failure ] |}.
Proof.
  apply (stalled_request_never_returns (mini_engine None) ()
           [Arrive () true two_rows]
           [Complete () 1; Complete () 0; Complete () 1; Arrive () true scenario;
            Complete () 1]%nat scenario); reflexivity.
Defined.

(** ** Which requests reach the database *)

Lemma complete_not_incomplete (body : json) :
  truthy (get "sqlQuery" body) = true →
  truthy (get "createTableSql" body) = true →
  isArray (get "insertDataSql" body) = true →
  incomplete body = false.
Proof.
  intros Hq Hc Hi. unfold incomplete; cbn zeta. rewrite Hq, Hc, Hi.
  destruct (get "insertDataSql" body) as [[]|]; try discriminate. reflexivity.
Qed.

(** A database is created exactly for the requests whose query and table
    definition are truthy, of whatever type, and whose seed statements
    are an array; every other request is answered with status 400 and
    nothing else happens. *)
Theorem execute_sql_validation_exact (sqlite3 : Sqlite) (opens : bool) (body : json) :
  (NewDatabase ∈ events (execute_sql sqlite3 opens body)
   ↔ truthy (get "sqlQuery" body) = true
     ∧ truthy (get "createTableSql" body) = true
     ∧ isArray (get "insertDataSql" body) = true)
  ∧ (NewDatabase ∉ events (execute_sql sqlite3 opens body) →
     execute_sql sqlite3 opens body
     = {| events := [Respond 400 (error_json
            "SQL query, CREATE TABLE statement, and INSERT data are required.")];
          returned := true |}).
Proof.
  destruct (incomplete body) eqn:Hinc.
  - rewrite (incomplete_true_rejected _ _ _ Hinc). split; [|done].
    split.
    + intros Hin. apply list_elem_of_singleton in Hin. discriminate.
    + intros (Hq & Hc & Hi).
      rewrite (complete_not_incomplete _ Hq Hc Hi) in Hinc. discriminate.
  - assert (NewDatabase ∈ events (execute_sql sqlite3 opens body)) as Hin.
    { unfold execute_sql. rewrite Hinc. destruct opens; apply list_elem_of_here. }
    split; [|done]. split; [|done]. intros _. by apply incomplete_false.
Qed.

(** ** The order of the statements *)

Section Order.
Variable sqlite3 : Sqlite.

Lemma runs_catch_finally (m : string) : runs (catch_finally m) = [].
Proof. reflexivity. Qed.

Lemma runs_query_step sqlQuery d : runs (query_step sqlite3 sqlQuery d) = [].
Proof.
  unfold query_step.
  destruct (sql_throws sqlite3 sqlQuery); [reflexivity|].
  by destruct (all sqlite3 sqlQuery d).
Qed.

Lemma runs_insert_loop stmts sqlQuery d :
  runs (insert_loop sqlite3 stmts sqlQuery d) `prefix_of` stmts
  ∧ (is_Some (seeded sqlite3 stmts d) →
     runs (insert_loop sqlite3 stmts sqlQuery d) = stmts).
Proof.
  revert d. induction stmts as [|stmt rest IH]; intros d; cbn [insert_loop seeded].
  - rewrite runs_query_step. split; [apply prefix_nil | done].
  - change (runs (DbRun stmt :: ?tr)) with (stmt :: runs tr).
    destruct (sql_throws sqlite3 stmt) as [m|].
    + split; [apply prefix_cons, prefix_nil | by intros [? ?]].
    + destruct (run sqlite3 stmt d) as [m|d'].
      * split; [apply prefix_cons, prefix_nil | by intros [? ?]].
      * destruct (IH d') as [Hpre Hall].
        split; [by apply prefix_cons|]. intros Hs. by rewrite Hall.
Qed.

Lemma all_in_catch_finally q (m : string) : DbAll q ∉ catch_finally m.
Proof.
  unfold catch_finally. rewrite !elem_of_cons, elem_of_nil.
  intros [? | [? | []]]; discriminate.
Qed.

Lemma all_in_insert_loop q stmts sqlQuery d :
  DbAll q ∈ insert_loop sqlite3 stmts sqlQuery d
  ↔ q = sqlQuery ∧ is_Some (seeded sqlite3 stmts d).
Proof.
  revert d. induction stmts as [|stmt rest IH]; intros d; cbn [insert_loop seeded].
  - unfold query_step. rewrite elem_of_cons. split.
    + intros [[= ->] | Hin]; [by eauto|].
      destruct (sql_throws sqlite3 sqlQuery).
      * by apply all_in_catch_finally in Hin.
      * destruct (all sqlite3 sqlQuery d);
          rewrite !elem_of_cons, elem_of_nil in Hin;
          destruct Hin as [? | [? | []]]; discriminate.
    + intros [-> _]. by left.
  - rewrite elem_of_cons.
    destruct (sql_throws sqlite3 stmt) as [m|].
    + split; [|by intros [_ [? ?]]].
      intros [? | Hin]; [done | by apply all_in_catch_finally in Hin].
    + destruct (run sqlite3 stmt d) as [m|d'].
      * split; [|by intros [_ [? ?]]].
        intros [? | Hin]; [done | by apply all_in_catch_finally in Hin].
      * rewrite <- IH. split; [|by right].
        intros [? | ?]; [discriminate | done].
Qed.

End Order.

(** Whatever the engine answers, the statements handed to [db.run] are a
    prefix of the table definition followed by the seed statements, in
    that order; the query is handed to [db.all] only when the database
    opened and every one of them has succeeded, and then all of them
    have been run. *)
Theorem statements_run_in_order (sqlite3 : Sqlite) (opens : bool) (body : json) :
  runs (events (execute_sql sqlite3 opens body))
    `prefix_of` (default JNull (get "createTableSql" body)
                 :: elements (get "insertDataSql" body))
  ∧ (∀ q, DbAll q ∈ events (execute_sql sqlite3 opens body) ↔
       q = default JNull (get "sqlQuery" body)
       ∧ opens = true ∧ incomplete body = false
       ∧ is_Some (seeded sqlite3
                    (default JNull (get "createTableSql" body)
                     :: elements (get "insertDataSql" body))
                    (empty_db sqlite3)))
  ∧ (∀ q, DbAll q ∈ events (execute_sql sqlite3 opens body) →
       runs (events (execute_sql sqlite3 opens body))
       = default JNull (get "createTableSql" body)
         :: elements (get "insertDataSql" body)).
Proof.
  assert (∀ q, DbAll q ∈ events (execute_sql sqlite3 opens body) ↔
       q = default JNull (get "sqlQuery" body)
       ∧ opens = true ∧ incomplete body = false
       ∧ is_Some (seeded sqlite3
                    (default JNull (get "createTableSql" body)
                     :: elements (get "insertDataSql" body))
                    (empty_db sqlite3))) as Hall.
  { intros q. unfold execute_sql. destruct (incomplete body) eqn:Hinc; cbn zeta.
    { cbn [events]. unfold bad_request. rewrite list_elem_of_singleton.
      split; [discriminate | by intros (_ & _ & ? & _)]. }
    destruct opens.
    - cbn [events]. unfold try_block. simpl seeded.
      rewrite !elem_of_cons.
      destruct (sql_throws sqlite3 (default JNull (get "createTableSql" body))).
      { split; [|by intros (_ & _ & _ & [? ?])].
        intros [? | [? | Hin]]; [done | done |].
        by apply all_in_catch_finally in Hin. }
      destruct (run sqlite3 (default JNull (get "createTableSql" body))
                  (empty_db sqlite3)) as [m|d].
      { split; [|by intros (_ & _ & _ & [? ?])].
        intros [? | [? | Hin]]; [done | done |].
        by apply all_in_catch_finally in Hin. }
      rewrite all_in_insert_loop. split.
      + intros [? | [? | [-> ?]]]; [discriminate | discriminate | done].
      + intros (-> & _ & _ & ?). by right; right.
    - split; [|by intros (_ & ? & _)].
      intros Hin. exfalso. revert Hin.
      cbn [events]. unfold try_block_unopened, init_failure.
      destruct (sql_throws sqlite3 (default JNull (get "createTableSql" body)));
        [|destruct (failed_handle sqlite3)]; cbn [events app catch_finally];
        rewrite ?elem_of_cons, ?elem_of_nil; intros Hin;
        repeat (destruct Hin as [Hin|Hin]; [discriminate|]);
        try done; by apply all_in_catch_finally in Hin. }
  split_and!; [|exact Hall|].
  - unfold execute_sql. destruct (incomplete body) eqn:Hinc; cbn zeta.
    { apply prefix_nil. }
    destruct opens; cbn [events].
    + unfold try_block.
      change (runs (NewDatabase :: DbRun ?c :: ?tr)) with (c :: runs tr).
      destruct (sql_throws sqlite3 (default JNull (get "createTableSql" body))).
      { apply prefix_cons, prefix_nil. }
      destruct (run sqlite3 (default JNull (get "createTableSql" body))
                  (empty_db sqlite3)) as [m|d].
      { apply prefix_cons, prefix_nil. }
      apply prefix_cons, runs_insert_loop.
    + unfold try_block_unopened.
      destruct (sql_throws sqlite3 (default JNull (get "createTableSql" body)));
        [|destruct (failed_handle sqlite3)]; apply prefix_cons, prefix_nil.
  - intros q (_ & -> & Hinc & Hseed)%Hall.
    rewrite (execute_sql_opened _ _ Hinc). unfold try_block.
    change (runs (NewDatabase :: DbRun ?c :: ?tr)) with (c :: runs tr).
    simpl in Hseed.
    destruct (sql_throws sqlite3 (default JNull (get "createTableSql" body)));
      [by destruct Hseed|].
    destruct (run sqlite3 (default JNull (get "createTableSql" body))
                (empty_db sqlite3)) as [m|d]; [by destruct Hseed|].
    f_equal. by apply runs_insert_loop.
Qed.

(** ** What a response can be *)

Lemma respond_in_catch_finally (message : string) (s : Z) (b : json) :
  Respond s b ∈ catch_finally message →
  s = 500 ∧ ∃ m, b = error_json m ∧ m ≠ "".
Proof.
  unfold catch_finally. rewrite !elem_of_cons, elem_of_nil.
  intros [[= -> ->] | [? | []]]; [|discriminate].
  split; [reflexivity|]. eexists; split; [reflexivity|].
  destruct (decide (message = "")) as [->|Hne].
  - by rewrite bool_decide_eq_true_2.
  - by rewrite bool_decide_eq_false_2.
Qed.

Section Responses.
Variable sqlite3 : Sqlite.

(** What the loop and the query can answer with. *)
Lemma respond_in_insert_loop stmts sqlQuery d (s : Z) (b : json) :
  Respond s b ∈ insert_loop sqlite3 stmts sqlQuery d →
  (s = 200 ∧ ∃ d' rows,
      seeded sqlite3 stmts d = Some d'
      ∧ sql_throws sqlite3 sqlQuery = None
      ∧ all sqlite3 sqlQuery d' = Success rows
      ∧ b = JObj [("results", JArr rows)])
  ∨ (s = 500 ∧ ∃ m, b = error_json m ∧ m ≠ "").
Proof.
  revert d. induction stmts as [|stmt rest IH]; intros d; cbn [insert_loop seeded].
  - unfold query_step. rewrite elem_of_cons. intros [? | Hin]; [discriminate|].
    destruct (sql_throws sqlite3 sqlQuery) as [m|].
    { right. by apply respond_in_catch_finally in Hin. }
    destruct (all sqlite3 sqlQuery d) as [m|rows] eqn:Hall;
      rewrite !elem_of_cons, elem_of_nil in Hin;
      destruct Hin as [? | [[= -> ->] | []]]; try discriminate.
    + right. split; [reflexivity|]. eexists; split; [reflexivity|].
      apply append_not_empty.
    + left. split; [reflexivity|]. by exists d, rows.
  - rewrite elem_of_cons. intros [? | Hin]; [discriminate|].
    destruct (sql_throws sqlite3 stmt) as [m|].
    { right. by apply respond_in_catch_finally in Hin. }
    destruct (run sqlite3 stmt d) as [m|d'].
    { right. by apply respond_in_catch_finally in Hin. }
    by apply IH.
Qed.

End Responses.

(** A response with status 200 is only ever sent for a valid request whose
    database opened and whose table definition and seed statements all
    succeeded, and it holds, under [results], the rows the engine gave
    for the query on the database those statements built. *)
Theorem success_response_sound (sqlite3 : Sqlite) (opens : bool) (body b : json) :
  Respond 200 b ∈ events (execute_sql sqlite3 opens body) →
  opens = true ∧ incomplete body = false
  ∧ ∃ d rows,
      seeded sqlite3
        (default JNull (get "createTableSql" body) :: elements (get "insertDataSql" body))
        (empty_db sqlite3) = Some d
      ∧ all sqlite3 (default JNull (get "sqlQuery" body)) d = Success rows
      ∧ b = JObj [("results", JArr rows)].
Proof.
  unfold execute_sql. destruct (incomplete body) eqn:Hinc; cbn zeta.
  { cbn [events]. rewrite list_elem_of_singleton. discriminate. }
  destruct opens; cbn [events].
  - unfold try_block. cbn [seeded]. rewrite !elem_of_cons.
    intros [? | [? | Hin]]; [discriminate | discriminate |].
    destruct (sql_throws sqlite3 (default JNull (get "createTableSql" body))).
    { apply respond_in_catch_finally in Hin as [? _]. discriminate. }
    destruct (run sqlite3 (default JNull (get "createTableSql" body))
                (empty_db sqlite3)) as [m|d0].
    { apply respond_in_catch_finally in Hin as [? _]. discriminate. }
    apply respond_in_insert_loop in Hin
      as [(_ & d & rows & Hseed & _ & Hall & ->) | [? _]]; [|discriminate].
    split_and!; try done. by exists d, rows.
  - intros Hin. exfalso. revert Hin.
    unfold try_block_unopened, init_failure.
    destruct (sql_throws sqlite3 (default JNull (get "createTableSql" body)));
      [|destruct (failed_handle sqlite3)]; cbn [events app catch_finally];
      rewrite ?elem_of_cons, ?elem_of_nil; intros Hin;
      repeat (destruct Hin as [Hin|Hin]; [discriminate|]);
      try done; apply respond_in_catch_finally in Hin as [? _]; discriminate.
Qed.

Lemma success_response_sound_witness :
  true = true ∧ incomplete scenario = false
  ∧ ∃ d rows,
      seeded (mini_sqlite None)
        [JStr "CREATE TABLE t (id INTEGER)"; JStr "INSERT INTO t VALUES (1)"]
        None = Some d
      ∧ mini_all (JStr "SELECT * FROM t") d = Success rows
      ∧ JObj [("results", JArr [JObj [("id", JNum 1%float)]])]
        = JObj [("results", JArr rows)].
Proof.
  apply (success_response_sound (mini_sqlite None) true scenario
           (JObj [("results", JArr [JObj [("id", JNum 1%float)]])])).
  vm_compute. do 5 apply list_elem_of_further. apply list_elem_of_here.
Defined.

(** Every response of the execution endpoint has status 200, 400 or 500,
    and one that is not a success holds an error text that is not empty:
    an error that comes without a message is answered with the fixed text
    of line 171. *)
Theorem error_responses_carry_text (sqlite3 : Sqlite) (opens : bool)
    (body : json) (s : Z) (b : json) :
  Respond s b ∈ events (execute_sql sqlite3 opens body) →
  (s = 200 ∧ ∃ rows, b = JObj [("results", JArr rows)])
  ∨ ((s = 400 ∨ s = 500) ∧ ∃ m, b = error_json m ∧ m ≠ "").
Proof.
  assert (∀ message, Respond s b ∈ catch_finally message →
            (s = 200 ∧ ∃ rows, b = JObj [("results", JArr rows)])
            ∨ ((s = 400 ∨ s = 500) ∧ ∃ m, b = error_json m ∧ m ≠ "")) as Hcatch.
  { intros message [-> Hm]%respond_in_catch_finally. right. by split; [right|]. }
  unfold execute_sql. destruct (incomplete body) eqn:Hinc; cbn zeta.
  { cbn [events]. rewrite list_elem_of_singleton. intros [= -> ->].
    right. split; [by left|]. by eexists. }
  destruct opens; cbn [events].
  - unfold try_block. rewrite !elem_of_cons.
    intros [? | [? | Hin]]; [discriminate | discriminate |].
    destruct (sql_throws sqlite3 (default JNull (get "createTableSql" body))).
    { by eapply Hcatch. }
    destruct (run sqlite3 (default JNull (get "createTableSql" body))
                (empty_db sqlite3)) as [m|d0].
    { by eapply Hcatch. }
    apply respond_in_insert_loop in Hin
      as [(-> & d & rows & _ & _ & _ & ->) | [-> Hm]].
    + left. split; [reflexivity|]. by exists rows.
    + right. by split; [right|].
  - assert (Respond s b = init_failure →
              (s = 200 ∧ ∃ rows, b = JObj [("results", JArr rows)])
              ∨ ((s = 400 ∨ s = 500) ∧ ∃ m, b = error_json m ∧ m ≠ "")) as Hinit.
    { intros [= -> ->]. right. split; [by right|]. by eexists. }
    unfold try_block_unopened.
    destruct (sql_throws sqlite3 (default JNull (get "createTableSql" body)));
      [|destruct (failed_handle sqlite3)]; cbn [events].
    + rewrite !elem_of_cons, elem_of_app, list_elem_of_singleton.
      intros [? | [? | [Hin | Hin]]]; [discriminate | discriminate | |].
      * by eapply Hcatch.
      * by apply Hinit.
    + rewrite !elem_of_cons.
      intros [? | [? | [Hin | Hin]]]; [discriminate | discriminate | |].
      * by apply Hinit.
      * by eapply Hcatch.
    + rewrite !elem_of_cons, elem_of_nil.
      intros [? | [? | [Hin | []]]]; [discriminate | discriminate |].
      by apply Hinit.
Qed.

Lemma error_responses_carry_text_witness :
  (500 = 200 ∧ ∃ rows, error_json "SQL query expected" = JObj [("results", JArr rows)])
  ∨ ((500 = 400 ∨ 500 = 500)
     ∧ ∃ m, error_json "SQL query expected" = error_json m ∧ m ≠ "").
Proof.
  apply (error_responses_carry_text (mini_sqlite None) true
           (execution_request (JStr "SELECT * FROM t") (JNum 5%float) [])).
  vm_compute. do 2 apply list_elem_of_further. apply list_elem_of_here.
Defined.

(** ** Normalisation removes text at the two ends only *)

Lemma strip_one_Some (ps : list string) (s r : string) :
  strip_one ps s = Some r → ∃ p, s = p +:+ r.
Proof.
  induction ps as [|p ps IH]; simpl; [discriminate|].
  destruct (strip_prefix p s) as [x|] eqn:Hp; [|exact IH].
  intros [= <-]. exists p. by apply strip_prefix_Some.
Qed.

Lemma strip_all_suffix (fuel : nat) (ps : list string) (s : string) :
  ∃ pre, s = pre +:+ strip_all fuel ps s.
Proof.
  revert s. induction fuel as [|fuel IH]; intros s; simpl; [by exists ""|].
  destruct (strip_one ps s) as [r|] eqn:Hr; [|by exists ""].
  apply strip_one_Some in Hr as [p ->].
  destruct (IH r) as [pre Hpre]. exists (p +:+ pre).
  by rewrite append_assoc, <- Hpre.
Qed.

Lemma trimStart_suffix (s : string) : ∃ pre, s = pre +:+ trimStart s.
Proof. apply strip_all_suffix. Qed.

Lemma trimEnd_prefix (s : string) : ∃ post, s = trimEnd s +:+ post.
Proof.
  unfold trimEnd.
  destruct (strip_all_suffix (String.length s) (map String.rev white_space)
              (String.rev s)) as [pre Hpre].
  exists (String.rev pre).
  by rewrite <- rev_append, <- Hpre, rev_involutive.
Qed.

Lemma trim_inside (s : string) : ∃ pre post, s = pre +:+ trim s +:+ post.
Proof.
  unfold trim. destruct (trimStart_suffix s) as [pre Hpre].
  destruct (trimEnd_prefix (trimStart s)) as [post Hpost].
  exists pre, post. by rewrite <- Hpost.
Qed.

Lemma drop_letters_suffix (s : string) : ∃ pre, s = pre +:+ drop_letters s.
Proof.
  induction s as [|a s [pre IH]]; [by exists ""|]. cbn [drop_letters].
  destruct (is_letter a); [|by exists ""].
  exists (String a pre). by rewrite append_cons, <- IH.
Qed.

Lemma drop_newline_suffix (s : string) : ∃ pre, s = pre +:+ drop_newline s.
Proof.
  unfold drop_newline. destruct (strip_prefix LF s) as [r|] eqn:Hr; [|by exists ""].
  exists LF. by apply strip_prefix_Some.
Qed.

Lemma remove_opening_fence_suffix (s : string) :
  ∃ pre, s = pre +:+ remove_opening_fence s.
Proof.
  unfold remove_opening_fence.
  destruct (strip_prefix "```" s) as [r|] eqn:Hr; [|by exists ""].
  apply strip_prefix_Some in Hr as ->.
  destruct (drop_letters_suffix r) as [p1 H1].
  destruct (drop_newline_suffix (drop_letters r)) as [p2 H2].
  exists ("```" +:+ p1 +:+ p2).
  by rewrite !append_assoc, <- H2, <- H1.
Qed.

Lemma remove_closing_fence_prefix (s : string) :
  ∃ post, s = remove_closing_fence s +:+ post.
Proof.
  unfold remove_closing_fence.
  destruct (strip_suffix (LF +:+ "```") s) as [r|] eqn:Hr.
  { eexists. by apply strip_suffix_Some. }
  destruct (strip_suffix "```" s) as [r|] eqn:Hr'.
  { eexists. by apply strip_suffix_Some. }
  exists "". by rewrite append_empty_r.
Qed.

(** Normalisation changes nothing inside the reply: what is handed to the
    parser is one piece of the reply, as it stands there, with some text
    before it and some text after it left out. *)
Theorem cleanedText_inside (text : string) :
  ∃ pre post, text = pre +:+ cleanedText text +:+ post.
Proof.
  unfold cleanedText; cbn zeta.
  destruct (trim_inside text) as (pre & post & Htrim).
  destruct (startsWith "```" (trim text)); [|by exists pre, post].
  destruct (remove_opening_fence_suffix (trim text)) as [p1 H1].
  destruct (remove_closing_fence_prefix (remove_opening_fence (trim text)))
    as [p2 H2].
  exists (pre +:+ p1), (p2 +:+ post).
  rewrite Htrim at 1. rewrite H1 at 1. rewrite H2 at 1.
  by rewrite !append_assoc.
Qed.

(** ** Fences on the line of the content *)

Lemma append_inj_r (s t p : string) : s +:+ p = t +:+ p → s = t.
Proof.
  intros H. apply (f_equal String.rev) in H. rewrite !rev_append in H.
  apply (inj (String.app _)) in H.
  by rewrite <- (rev_involutive s), H, rev_involutive.
Qed.

Lemma drop_letters_app (tag rest : string) :
  all_letters tag = true → drop_letters (tag +:+ rest) = drop_letters rest.
Proof.
  induction tag as [|a tag IH]; [reflexivity|].
  simpl all_letters. intros [Ha Htag]%andb_true_iff.
  rewrite append_cons. simpl drop_letters. rewrite Ha. by apply IH.
Qed.

Lemma drop_letters_id (s : string) :
  first_is_letter s = false → drop_letters s = s.
Proof. destruct s as [|a s]; simpl; [done|]. by intros ->. Qed.

Lemma remove_closing_fence_inline (content : string) :
  strip_suffix LF content = None →
  remove_closing_fence (content +:+ "```") = content.
Proof.
  intros Hnone. unfold remove_closing_fence.
  destruct (strip_suffix (LF +:+ "```") (content +:+ "```")) as [r|] eqn:Hr.
  - apply strip_suffix_Some in Hr. rewrite <- append_assoc in Hr.
    apply append_inj_r in Hr. subst content.
    rewrite strip_suffix_app in Hnone. discriminate.
  - by rewrite strip_suffix_app.
Qed.

(** A reply whose fences stand on the line of the content: when the
    content starts neither with a letter nor with a line feed and does
    not end with a line feed, the two fences are removed and the content
    is handed to the parser; letters that follow the opening fence are
    taken for a language tag, so a block that holds letters only is
    handed to the parser as the empty text. *)
Theorem cleanedText_inline (text content : string) :
  (first_is_letter content = false →
   strip_prefix LF content = None →
   strip_suffix LF content = None →
   trim text = "```" +:+ content +:+ "```" →
   cleanedText text = content)
  ∧ (all_letters content = true →
     trim text = "```" +:+ content +:+ "```" →
     cleanedText text = "").
Proof.
  unfold cleanedText; cbn zeta. split.
  - intros Hfirst Hlf Hend ->. unfold startsWith. rewrite strip_prefix_app.
    unfold remove_opening_fence. rewrite strip_prefix_app.
    assert (first_is_letter (content +:+ "```") = false) as Hfirst'.
    { destruct content; [reflexivity | exact Hfirst]. }
    rewrite (drop_letters_id _ Hfirst').
    assert (strip_prefix LF (content +:+ "```") = None) as Hlf'.
    { destruct content as [|a content]; [reflexivity|].
      rewrite append_cons. unfold LF in *. cbn [strip_prefix] in *.
      destruct (Ascii.eqb "010" a); [discriminate | reflexivity]. }
    unfold drop_newline. rewrite Hlf'.
    by apply remove_closing_fence_inline.
  - intros Htag ->. unfold startsWith. rewrite strip_prefix_app.
    unfold remove_opening_fence. rewrite strip_prefix_app.
    rewrite (drop_letters_app _ _ Htag). reflexivity.
Qed.

Lemma cleanedText_inline_witness :
  cleanedText " ```{}``` " = "{}" ∧ cleanedText "```true```" = "".
Proof.
  split.
  - destruct (cleanedText_inline " ```{}``` " "{}") as [Hcontent _].
    apply Hcontent; reflexivity.
  - destruct (cleanedText_inline "```true```" "true") as [_ Hletters].
    apply Hletters; reflexivity.
Defined.

(** ** A language tag that is not made of letters *)

(** C7 fails at a fenced block whose language tag holds a character that
    is not a letter, such as the digit of [json5]: line 91 is meant to
    remove the first line, but its pattern removes the letters after the
    fence only, and a line feed only when it comes next.  The tag from
    its first other character on stays, with the line feed after it, and
    is handed to the parser in front of the content. *)
Theorem cleanedText_keeps_tag_tail (text letters : string) (a : ascii)
    (tail content : string) :
  all_letters letters = true →
  is_letter a = false →
  Ascii.eqb "010" a = false →
  trim text
  = "```" +:+ letters +:+ String a tail +:+ LF +:+ content +:+ LF +:+ "```" →
  cleanedText text = String a tail +:+ LF +:+ content.
Proof.
  intros Hletters Ha Hlf Htrim. unfold cleanedText; cbn zeta. rewrite Htrim.
  unfold startsWith. rewrite strip_prefix_app.
  unfold remove_opening_fence. rewrite strip_prefix_app.
  rewrite (drop_letters_app _ _ Hletters).
  rewrite append_cons. simpl drop_letters. rewrite Ha.
  unfold drop_newline, LF at 1. cbn [strip_prefix]. rewrite Hlf.
  rewrite <- append_cons.
  replace (String a tail +:+ LF +:+ content +:+ LF +:+ "```")
    with ((String a tail +:+ LF +:+ content) +:+ LF +:+ "```")
    by (by rewrite !append_assoc).
  apply remove_closing_fence_line.
Qed.

Lemma cleanedText_keeps_tag_tail_witness :
  cleanedText ("```json5" +:+ LF +:+ "{}" +:+ LF +:+ "```") = "5" +:+ LF +:+ "{}".
Proof.
  apply (cleanedText_keeps_tag_tail
           ("```json5" +:+ LF +:+ "{}" +:+ LF +:+ "```") "json" "5" "" "{}");
    reflexivity.
Defined.

(** ** From the synthesis endpoint to the execution endpoint *)

Lemma lookup_prop_absent (key : string) (props : list (string * json)) :
  key ∉ map fst props → lookup_prop key props = None.
Proof.
  induction props as [|[k v] props IH]; [reflexivity|].
  cbn [map fst]. rewrite not_elem_of_cons. intros [Hne Hrest].
  cbn [lookup_prop]. rewrite (IH Hrest).
  by rewrite (proj2 (String.eqb_neq k key)).
Qed.

Lemma picked_unfold (parsed : json) :
  picked parsed
  = JObj (option_list (pair "sqlQuery" <$> get "sqlQuery" parsed)
          ++ option_list (pair "createTableSql" <$> get "createTableSql" parsed)
          ++ option_list (pair "insertDataSql" <$> get "insertDataSql" parsed)).
Proof.
  unfold picked. cbn -[get].
  destruct (get "sqlQuery" parsed), (get "createTableSql" parsed),
    (get "insertDataSql" parsed); reflexivity.
Qed.

Lemma picked_fields (q c i : option json) :
  let props := option_list (pair "sqlQuery" <$> q)
               ++ option_list (pair "createTableSql" <$> c)
               ++ option_list (pair "insertDataSql" <$> i) in
  lookup_prop "sqlQuery" props = q
  ∧ lookup_prop "createTableSql" props = c
  ∧ lookup_prop "insertDataSql" props = i
  ∧ ∀ key, key ∈ map fst props →
           key ∈ ["sqlQuery"; "createTableSql"; "insertDataSql"].
Proof.
  destruct q, c, i; cbn zeta; split_and!; try reflexivity;
    intros key; cbn; rewrite ?elem_of_cons, ?elem_of_nil; tauto.
Qed.

(** The object the synthesis handler answers with holds the three fields
    as the parsed reply has them and nothing else, so the execution
    handler treats it as it treats the parsed reply itself: the answer of
    the one endpoint, posted to the other, is turned away with status 400
    exactly when the reply of the model lacked a field. *)
Theorem synthesis_answer_executes (parsed : json) :
  get "sqlQuery" (picked parsed) = get "sqlQuery" parsed
  ∧ get "createTableSql" (picked parsed) = get "createTableSql" parsed
  ∧ get "insertDataSql" (picked parsed) = get "insertDataSql" parsed
  ∧ (∀ key, key ∉ ["sqlQuery"; "createTableSql"; "insertDataSql"] →
       get key (picked parsed) = None)
  ∧ incomplete (picked parsed) = incomplete parsed
  ∧ ∀ sqlite3 opens,
      execute_sql sqlite3 opens (picked parsed) = execute_sql sqlite3 opens parsed.
Proof.
  rewrite picked_unfold.
  destruct (picked_fields (get "sqlQuery" parsed) (get "createTableSql" parsed)
              (get "insertDataSql" parsed)) as (Hq & Hc & Hi & Hkeys).
  cbn zeta in *. cbn [get].
  split_and!; try done.
  - intros key Hkey. apply lookup_prop_absent. intros Hin. by apply Hkey, Hkeys.
  - unfold incomplete. cbn [get]. by rewrite Hq, Hc, Hi.
  - intros sqlite3 opens. by apply execute_sql_same_artifacts.
Qed.

(** ** The instruction sent to the model *)

Lemma contains_unfold (needle hay : string) :
  contains needle hay
  = startsWith needle hay
    || match hay with
       | EmptyString => false
       | String _ hay' => contains needle hay'
       end.
Proof. by destruct hay. Qed.

Lemma contains_middle (needle before after : string) :
  contains needle (before +:+ needle +:+ after) = true.
Proof.
  induction before as [|a before IH]; rewrite contains_unfold.
  - change ("" +:+ needle +:+ after) with (needle +:+ after).
    unfold startsWith. by rewrite strip_prefix_app.
  - rewrite append_cons, IH. apply orb_true_r.
Qed.

(** A prompt that is a string stands in the instruction as it is, between
    the fixed text before it and the fixed text after it, with nothing
    escaped; two prompts that differ give two instructions that differ. *)
Theorem prompt_verbatim (Number_toString : float → string) (p1 p2 : string) :
  geminiPrompt Number_toString (JStr p1)
  = Some (instruction_head +:+ p1 +:+ instruction_tail)
  ∧ contains p1 (instruction_head +:+ p1 +:+ instruction_tail) = true
  ∧ (geminiPrompt Number_toString (JStr p1) = geminiPrompt Number_toString (JStr p2)
     ↔ p1 = p2).
Proof.
  unfold geminiPrompt. cbn [toString fmap option_fmap option_map].
  generalize instruction_head as h, instruction_tail as t. intros h t.
  split_and!; [reflexivity | apply contains_middle |].
  split; [|by intros ->].
  intros [= H]. apply (inj (String.app _)) in H. by apply append_inj_r in H.
Qed.

(** ** One answer per synthesis request *)

(** Whatever the service and the parser do, a synthesis request is
    answered exactly once; the service is called once when the prompt is
    truthy and the template literal can turn it into a string, and not at
    all otherwise. *)
Theorem generate_sql_answers_once
    (generateContent : string → option string)
    (JSON_parse : string → option json)
    (Number_toString : float → string) (body : json) :
  count is_respond (generate_sql generateContent JSON_parse Number_toString body)
  = 1%nat
  ∧ count is_generate (generate_sql generateContent JSON_parse Number_toString body)
    = (if truthy (get "prompt" body)
       then match toString Number_toString (default JNull (get "prompt" body)) with
            | Some _ => 1
            | None => 0
            end
       else 0)%nat.
Proof.
  unfold generate_sql, geminiPrompt; cbn zeta.
  destruct (truthy (get "prompt" body)); cbn [negb]; cbv iota; [|by split].
  destruct (toString Number_toString _) as [s|];
    cbn [fmap option_fmap option_map]; [|by split].
  destruct (generateContent _) as [text|]; [|by split].
  destruct (JSON_parse (cleanedText text)) as [[]|]; by split.
Qed.

(** ** No database is left behind *)

Section Release.
Variable E : Engine.

(** The handler calls [db.close] on every way to its end. *)
Lemma next_call_closes (rest : list json) (q : json) (evs : list event) (st : stage) :
  next_call E rest q = (evs, st) →
  st ≠ Stalled ∧ (st = Finished ∨ st = AwaitAll → closes evs = true).
Proof.
  unfold next_call.
  destruct rest as [|stmt rest']; destruct (refuses E _);
    intros [= <- <-]; split; try done; by intros [|].
Qed.

(** After a step the database of the task is there as long as the task
    is at work, and gone when the task has ended with [db.close]
    called. *)
Lemma kept_release (t : task) (d : content E) (dbs : gmap nat (content E)) (k : nat) :
  stage_of t ≠ Stalled →
  (stage_of t = Finished → closes (done t) = true) →
  is_Some (kept E t d dbs !! k) →
  (at_work t ∧ handle t = k) ∨ (is_Some (dbs !! k) ∧ k ≠ handle t).
Proof.
  unfold kept, at_work. intros Hgo Hclosed [x Hx].
  destruct (stage_of t) eqn:Hstage; try done.
  - apply lookup_insert_Some in Hx as [[<- _] | [Hne Hx]]; [by left|].
    right. split; [by exists x | done].
  - apply lookup_insert_Some in Hx as [[<- _] | [Hne Hx]]; [by left|].
    right. split; [by exists x | done].
  - rewrite Hclosed in Hx by done.
    apply lookup_delete_Some in Hx as [Hne Hx].
    right. split; [by exists x | done].
Qed.

Lemma idle_tidy : tidy E (idle E).
Proof.
  split.
  - intros k [d Hd]. unfold idle in Hd. cbn [databases] in Hd.
    by rewrite lookup_empty in Hd.
  - intros i t. simpl. by rewrite lookup_nil.
Qed.

Lemma extend_tidy (w : server E) (t : task)
    (dbs : gmap nat (content E)) (n : nat) :
  tidy E w →
  (∀ k, is_Some (dbs !! k) →
        is_Some (databases w !! k) ∨ (at_work t ∧ handle t = k)) →
  stage_of t ≠ AwaitAll →
  tidy E {| databases := dbs; next_handle := n; tasks := tasks w ++ [t] |}.
Proof.
  intros [Hw Hclosing] Hdbs Hnew. split; cbn [databases tasks] in *.
  - intros k Hk. destruct (Hdbs k Hk) as [Hold | [Hwork Hhandle]].
    + destruct (Hw k Hold) as (i & x & Hi & Hx & Hh).
      exists i, x. split_and!; try done. by apply lookup_app_l_Some.
    + exists (length (tasks w)), t. split_and!; try done.
      by apply list_lookup_middle.
  - intros i x [Hi | [_ Hi]]%lookup_app_Some Hx; [by eapply Hclosing|].
    by apply list_lookup_singleton_Some in Hi as [_ <-].
Qed.

Lemma arrive_tidy (a : ambient E) (opens : bool) (body : json) (w : server E) :
  tidy E w → tidy E (arrive E a opens body w).
Proof.
  intros Hw. unfold arrive; cbn zeta.
  destruct (incomplete body); [apply extend_tidy; auto|].
  destruct opens.
  2:{ apply extend_tidy; auto. simpl. by destruct (returned _). }
  destruct (refuses E (default JNull (get "createTableSql" body)));
    (apply extend_tidy; [done | | done]); intros k Hk;
    (apply kept_release in Hk as [? | [? _]]; [by right | by left | done | done]).
Qed.

(** A completion drops the database of the task when the task ends, and
    touches no other. *)
Lemma resume_release (a : ambient E) (t t' : task) (dbs dbs' : gmap nat (content E))
    (k : nat) :
  resume E a t dbs = (t', dbs') →
  (stage_of t = AwaitAll → closes (done t) = true) →
  (stage_of t' = AwaitAll → closes (done t') = true)
  ∧ (is_Some (dbs' !! k) →
     (at_work t' ∧ handle t' = k)
     ∨ (is_Some (dbs !! k) ∧ (at_work t → k ≠ handle t))).
Proof.
  unfold resume; cbn zeta. intros Hstep Hclosing.
  assert (∀ u d,
    (u, kept E u d dbs) = (t', dbs') →
    handle u = handle t →
    stage_of u ≠ Stalled →
    (stage_of u = Finished ∨ stage_of u = AwaitAll → closes (done u) = true) →
    (stage_of t' = AwaitAll → closes (done t') = true)
    ∧ (is_Some (dbs' !! k) →
       (at_work t' ∧ handle t' = k)
       ∨ (is_Some (dbs !! k) ∧ (at_work t → k ≠ handle t)))) as Hstepped.
  { intros u d [= <- <-] Hh Hgo Hcl. split; [auto|].
    intros [? | [? ?]]%kept_release; auto.
    right. split; [done|]. intros _. by rewrite <- Hh. }
  assert (dbs !! handle t = None →
    is_Some (dbs !! k) →
    (at_work t ∧ handle t = k)
    ∨ (is_Some (dbs !! k) ∧ (at_work t → k ≠ handle t))) as Hnone.
  { intros Hd [x Hx]. right. split; [by exists x|].
    intros _ ->. rewrite Hd in Hx. discriminate. }
  destruct (stage_of t) as [failed stmt stmts| | |] eqn:Hstage.
  - destruct (dbs !! handle t) as [d|] eqn:Hd.
    + destruct (execute E a stmt d) as [m|d'].
      { apply (Hstepped _ _ Hstep); [done | done |].
        intros _; simpl. by rewrite closes_app, closes_catch_finally, orb_true_r. }
      destruct (next_call E stmts _) as [evs st] eqn:Hnext.
      destruct (next_call_closes _ _ _ _ Hnext) as [Hgo Hcl].
      apply (Hstepped _ _ Hstep); [done | done |].
      intros Hst; simpl in *. by rewrite closes_app, (Hcl Hst), orb_true_r.
    + injection Hstep as <- <-. rewrite Hstage. split; [done|]. by apply Hnone.
  - destruct (dbs !! handle t) as [d|] eqn:Hd.
    + apply (Hstepped _ _ Hstep); [done | done |].
      intros _; simpl. by rewrite closes_app, Hclosing.
    + injection Hstep as <- <-. rewrite Hstage. split; [done|]. by apply Hnone.
  - injection Hstep as <- <-. rewrite Hstage. split; [done|].
    intros Hk. right. split; [done|]. intros [_ Hwork]. by rewrite Hstage in Hwork.
  - injection Hstep as <- <-. rewrite Hstage. split; [done|].
    intros Hk. right. split; [done|]. intros [Hwork _]. by rewrite Hstage in Hwork.
Qed.

Lemma act_tidy (w : server E) (x : action (ambient E)) :
  tidy E w → tidy E (act E w x).
Proof.
  intros Hw. destruct x as [a opens body | a i]; cbn [act].
  { by apply arrive_tidy. }
  destruct (tasks w !! i) as [t|] eqn:Hi; [|done].
  destruct (resume E a t (databases w)) as [t' dbs'] eqn:Hstep.
  destruct Hw as [Hw Hclosing].
  split; cbn [databases tasks] in *.
  - intros k Hk.
    destruct (resume_release _ _ _ _ _ k Hstep (Hclosing _ _ Hi)) as [_ Hrel].
    destruct (Hrel Hk) as [[Hwork Hh] | [Hold Hne]].
    + exists i, t'. split_and!; try done.
      apply list_lookup_insert_eq. by eapply lookup_lt_Some.
    + destruct (Hw k Hold) as (j & u & Hj & Hu & Hhu).
      exists j, u. split_and!; try done.
      rewrite list_lookup_insert_ne; [done|].
      intros <-. rewrite Hi in Hj. injection Hj as <-. by apply Hne.
  - intros j u [(<- & <- & _) | [Hij Hj]]%list_lookup_insert_Some Hu.
    + by apply (resume_release _ _ _ _ _ 0%nat Hstep (Hclosing _ _ Hi)).
    + by eapply Hclosing.
Qed.

Lemma serve_tidy (schedule : list (action (ambient E))) (w : server E) :
  tidy E w → tidy E (serve E schedule w).
Proof.
  revert w. induction schedule as [|x schedule IH]; intros w Hw; simpl; [done|].
  apply IH. by apply act_tidy.
Qed.

End Release.

(** Whatever the server has done and whatever the engine answers, every
    database it holds belongs to a request that is still at work, because
    the handler calls [db.close] on every way to its end; once no request
    is at work any more it holds no database at all. *)
Theorem no_database_left_behind (E : Engine) (schedule : list (action (ambient E))) :
  tidy E (serve E schedule (idle E))
  ∧ ((∀ t, t ∈ tasks (serve E schedule (idle E)) →
           stage_of t = Finished ∨ stage_of t = Stalled) →
     databases (serve E schedule (idle E)) = ∅).
Proof.
  pose proof (serve_tidy E schedule _ (idle_tidy E)) as Htidy.
  split; [exact Htidy|]. intros Hall.
  apply map_empty. intros k.
  destruct (databases (serve E schedule (idle E)) !! k) as [d|] eqn:Hd; [|done].
  destruct Htidy as [Htidy _].
  destruct (Htidy k) as (i & t & Hi & [Hfin Hstall] & _); [by exists d|].
  exfalso. destruct (Hall t); [by eapply list_elem_of_lookup_2 | done | done].
Qed.

Lemma no_database_left_behind_witness :
  databases (serve (mini_engine None) busy_schedule (idle (mini_engine None))) = ∅.
Proof.
  apply (no_database_left_behind (mini_engine None) busy_schedule).
  intros t Hin. vm_compute in Hin.
  repeat (apply elem_of_cons in Hin as [-> | Hin]; [by left|]).
  by apply elem_of_nil in Hin.
Defined.
